(** * Particle-swarm facility location: a shallow embedding

    This development embeds [src/optimization/facility_pso.py]:
    the fitness evaluator [calculate_total_cost] and the swarm loop
    [optimize_facility_locations_pso].

    Modelling conventions.
    - Python floats are exact rationals ([Q]); there is no NaN and no
      rounding.  Equalities between costs are stated up to [==].  The two
      operations that raise on an infinite double, [math.ceil] of the load
      quotient and the range check of [np.random.uniform], raise in the
      model when the exact value rounds to infinity ([float_overflows]).
    - The transcendental numpy primitives ([np.radians], [np.sin],
      [np.cos], [np.arcsin], [np.sqrt]) are the methods of the class
      [Numpy]: every theorem holds for any interpretation of them.
    - A Python [dict] is an association list in insertion order; [d[k] = v]
      overwrites in place or appends.
    - Exceptions are values of [result].
    - The counts [n_facilities], [n_particles] and [n_iterations] are
      natural numbers.
    - [np.random] and [time.time] are the streams of the class [World],
      read through counters that are threaded through the program state.
    - numpy rows obtained by integer indexing are views: the global best
      position is a reference that is either a view of a row of
      [personal_best_positions] or an array of its own. *)

From Stdlib Require Import QArith Qround Qminmax Qpower Qabs ZArith List String Bool Lia Lqa.
From Stdlib Require Import DecimalString DecimalNat Sorted.
Import ListNotations.
Open Scope Q_scope.

(** ** Exceptions *)

Inductive exn : Type :=
| KeyError
| ZeroDivisionError
| ValueError
| OverflowError.

Inductive result (A : Type) : Type :=
| Ok (a : A)
| Raise (e : exn).

Arguments Ok {A} a.
Arguments Raise {A} e.

Definition bind {A B : Type} (m : result A) (k : A -> result B) : result B :=
  match m with
  | Ok a => k a
  | Raise e => Raise e
  end.

Notation "x <- m ;; k" := (bind m (fun x => k))
  (at level 61, m at next level, right associativity).
Notation "' p <- m ;; k" := (bind m (fun x => let p := x in k))
  (at level 61, p pattern, m at next level, right associativity).

(** Monadic left fold: a [for] loop whose body may raise. *)
Fixpoint foldM {A S : Type} (body : S -> A -> result S) (l : list A) (s : S)
  : result S :=
  match l with
  | [] => Ok s
  | a :: l' => s' <- body s a ;; foldM body l' s'
  end.

(** ** Numbers *)

Definition Qltb (x y : Q) : bool := negb (Qle_bool y x).

(** Python's [max(a, b)]: the first argument unless the second is larger. *)
Definition py_max (a b : Q) : Q := if Qltb a b then b else a.

(** [math.ceil]. *)
Definition math_ceil (x : Q) : Z := Qceiling x.

(** A quotient of two doubles rounds to infinity when its exact value
    reaches [2^1024 - 2^970], half a unit in the last place above the
    largest double [2^1024 - 2^971] (round to nearest, ties to even).
    [math.ceil] raises [OverflowError] on an infinite argument. *)
Definition float_overflow_threshold : Q := inject_Z (2 ^ 1024 - 2 ^ 970).

Definition float_overflows (x : Q) : bool :=
  Qle_bool float_overflow_threshold (Qabs x).

Arguments float_overflows : simpl never.

Definition Qsum (l : list Q) : Q := fold_left Qplus l 0.

(** ** Python dictionaries, in insertion order *)

Module PyDict.

Definition dict (V : Type) : Type := list (string * V).

Definition keys {V : Type} (d : dict V) : list string := map fst d.

(** [d[k]], [None] standing for [KeyError]. *)
Fixpoint get {V : Type} (d : dict V) (k : string) : option V :=
    match d with
    | [] => None
    | (k', v) :: d' => if String.eqb k k' then Some v else get d' k
    end.

(** [d[k] = v]. *)
Fixpoint set {V : Type} (d : dict V) (k : string) (v : V) : dict V :=
    match d with
    | [] => [(k, v)]
    | (k', v') :: d' =>
        if String.eqb k k' then (k', v) :: d' else (k', v') :: set d' k v
    end.

(** [dict(zip(ks, vs))]. *)
Definition of_zip {V : Type} (ks : list string) (vs : list V) : dict V :=
    fold_left (fun d kv => set d (fst kv) (snd kv)) (combine ks vs) [].

End PyDict.

Import PyDict.

(** ** Arrays *)

(** In-place write [l[i] = x]; the indices written by the program are
    always in range. *)
Fixpoint list_set {A : Type} (l : list A) (i : nat) (x : A) : list A :=
  match l, i with
  | [], _ => []
  | _ :: l', O => x :: l'
  | y :: l', S i' => y :: list_set l' i' x
  end.

(** A geographic coordinate, (latitude, longitude): one row of an
    [n_facilities x 2] array. *)
Definition coord : Type := (Q * Q)%type.

(** An [n_facilities x 2] array. *)
Definition position : Type := list coord.

(** [sorted(range(len(keys)), key=lambda k: keys[k])]: a stable sort of the
    indices by ascending key. *)
Fixpoint insert_by_key (keys : list Q) (k : nat) (sorted : list nat) : list nat :=
  match sorted with
  | [] => [k]
  | j :: rest =>
      if Qle_bool (nth k keys 0) (nth j keys 0) then k :: sorted
      else j :: insert_by_key keys k rest
  end.

Definition sorted_range_by (keys : list Q) : list nat :=
  fold_right (insert_by_key keys) [] (seq 0 (List.length keys)).

(** [len(set(l))]: the number of distinct values. *)
Fixpoint distinct (l : list Q) : list Q :=
  match l with
  | [] => []
  | x :: l' => x :: filter (fun y => negb (Qeq_bool y x)) (distinct l')
  end.

(** [np.argmin]: index of the first minimum; raises on an empty array. *)
Fixpoint argmin_from (best_index : nat) (best : Q) (i : nat) (l : list Q) : nat :=
  match l with
  | [] => best_index
  | x :: l' =>
      if Qltb x best then argmin_from i x (S i) l'
      else argmin_from best_index best (S i) l'
  end.

Definition np_argmin (l : list Q) : result nat :=
  match l with
  | [] => Raise ValueError
  | x :: l' => Ok (argmin_from 0%nat x 1%nat l')
  end.

(** [Series.min()] and [Series.max()]; [None] stands for the NaN pandas
    returns on an empty column. *)
Definition series_min (l : list Q) : option Q :=
  match l with
  | [] => None
  | x :: l' => Some (fold_left Qmin l' x)
  end.

Definition series_max (l : list Q) : option Q :=
  match l with
  | [] => None
  | x :: l' => Some (fold_left Qmax l' x)
  end.

(** [np.clip(x, lo, hi)], that is [minimum(hi, maximum(x, lo))]. *)
Definition clip1 (x lo hi : Q) : Q := Qmin hi (Qmax x lo).

Definition np_clip (p : position) (lo hi : coord) : position :=
  map (fun c => (clip1 (fst c) (fst lo) (fst hi),
                 clip1 (snd c) (snd lo) (snd hi))) p.

(** The state of the customer loop of [calculate_total_cost]. *)
Module Eval.
Record state : Type := mk {
  facility_usage : list Q;
  total_cost : Q;
  assignments : dict (option nat)
}.
End Eval.

(** ** Data of the swarm optimizer *)

(** One row of [customers_df]. *)
Module Row.
Record t : Type := mk {
  CustomerID : string;
  Demand : Q;
  Latitude : Q;
  Longitude : Q
}.
End Row.

Definition DataFrame : Type := list Row.t.

(** One entry of [history]. *)
Module Hist.
Record entry : Type := mk {
  iteration : nat;
  best_score : Q;
  time : Q
}.
End Hist.

(** A numpy array variable holding an [n_facilities x 2] array: either a
    view of row [index] of [personal_best_positions] (what integer indexing
    returns) or an array of its own (what [np.copy] returns). *)
Inductive array_ref : Type :=
| RowView (index : nat)
| Owned (p : position).

Definition deref (personal_best_positions : list position) (r : array_ref)
  : position :=
  match r with
  | RowView index => nth index personal_best_positions []
  | Owned p => p
  end.

(** The arrays mutated by the particle sweep, with the number of values
    consumed so far from [np.random]. *)
Module Swarm.
Record state : Type := mk {
  draws : nat;
  particles : list position;
  velocities : list position;
  personal_best_positions : list position;
  personal_best_scores : list Q
}.
End Swarm.

(** The variables of the iteration loop, with the number of calls made so
    far to [time.time]. *)
Module Loop.
Record state : Type := mk {
  swarm : Swarm.state;
  global_best_position : array_ref;
  global_best_score : Q;
  current_inertia_weight : Q;
  history : list Hist.entry;
  completed_iterations : nat;
  clock_reads : nat
}.
End Loop.

Module Fac.
Record t : Type := mk {
  FacilityID : string;
  Latitude : Q;
  Longitude : Q
}.
End Fac.

Module Asg.
Record t : Type := mk {
  CustomerID : string;
  FacilityID : option string;
  Demand : Q
}.
End Asg.

(** The dictionary returned by [optimize_facility_locations_pso]. *)
Module Result.
Record t : Type := mk {
  status : string;
  total_cost : Q;
  facility_locations : list Fac.t;
  assignments : list Asg.t;
  history : list Hist.entry;
  completed_iterations : nat;
  total_time : Q
}.
End Result.

(** Element-wise arithmetic on [n_facilities x 2] arrays; the program only
    combines arrays of the same shape. *)
Definition arr_scale (k : Q) (p : position) : position :=
  map (fun c => (k * fst c, k * snd c)) p.

Definition arr_map2 (f : Q -> Q -> Q) (p q : position) : position :=
  map (fun cc => (f (fst (fst cc)) (fst (snd cc)), f (snd (fst cc)) (snd (snd cc))))
      (combine p q).

Definition arr_add : position -> position -> position := arr_map2 Qplus.
Definition arr_sub : position -> position -> position := arr_map2 Qminus.
Definition arr_mul : position -> position -> position := arr_map2 Qmult.

(** List comprehension whose body may raise. *)
Fixpoint mapM {A B : Type} (f : A -> result B) (l : list A) : result (list B) :=
  match l with
  | [] => Ok []
  | a :: l' => b <- f a ;; bs <- mapM f l' ;; Ok (b :: bs)
  end.

(** [f'FAC{i+1}']. *)
Definition facility_id (i : nat) : string :=
  ("FAC" ++ NilEmpty.string_of_uint (Nat.to_uint (i + 1)))%string.

(** ** The connection lines of the result map ([create_pso_map]) *)

(** One dictionary of the [connections] list: [source] and [target] are
    two-element lists, longitude first. *)
Module Conn.
Record t : Type := mk {
  source : list Q;
  target : list Q;
  customerID : string;
  facilityID : string
}.
End Conn.

(** [df[mask].iloc[0]]: the first row that satisfies the mask; [None]
    stands for the [IndexError] that [.iloc[0]] raises on an empty
    selection.  A table is a list of rows, so it always carries its
    columns. *)
Definition iloc0 {A : Type} (mask : A -> bool) (df : list A) : option A :=
  hd_error (filter mask df).

(** The body of the [if] in the loop of [create_pso_map]. *)
Definition connection (facility_locations_df : list Fac.t)
  (customers_df : DataFrame) (assignment : Asg.t) (facility : string)
  : option Conn.t :=
  match iloc0 (fun row => String.eqb (Row.CustomerID row) (Asg.CustomerID assignment))
              customers_df with
  | None => None
  | Some customer_row =>
      match iloc0 (fun row => String.eqb (Fac.FacilityID row) facility)
                  facility_locations_df with
      | None => None
      | Some facility_row =>
          Some (Conn.mk [Row.Longitude customer_row; Row.Latitude customer_row]
                        [Fac.Longitude facility_row; Fac.Latitude facility_row]
                        (Asg.CustomerID assignment)
                        facility)
      end
  end.

(** One turn of the loop over [assignments_df.iterrows()]: a record whose
    [FacilityID] cell reads [None] is skipped, the others append one
    connection.  The records are the rows as [iterrows] yields them: whether
    a [None] given to [pd.DataFrame] is still [None] there depends on the
    pandas version, so nothing below relies on it. *)
Definition add_connection (facility_locations_df : list Fac.t)
  (customers_df : DataFrame) (acc : option (list Conn.t)) (assignment : Asg.t)
  : option (list Conn.t) :=
  match acc with
  | None => None
  | Some connections =>
      match Asg.FacilityID assignment with
      | None => Some connections
      | Some facility =>
          match connection facility_locations_df customers_df assignment
                           facility with
          | None => None
          | Some c => Some (connections ++ [c])
          end
      end
  end.

(** The list [connections] built by [create_pso_map]. *)
Definition connections (facility_locations_df : list Fac.t)
  (customers_df : DataFrame) (assignments_df : list Asg.t)
  : option (list Conn.t) :=
  fold_left (add_connection facility_locations_df customers_df)
            assignments_df (Some []).

(** The assignment records that name a facility. *)
Definition has_facility (assignment : Asg.t) : bool :=
  match Asg.FacilityID assignment with
  | Some _ => true
  | None => false
  end.

(** ** The environment *)

(** The numpy primitives that have no rational counterpart. *)
Class Numpy : Type := {
  np_radians : Q -> Q;
  np_sin : Q -> Q;
  np_cos : Q -> Q;
  np_arcsin : Q -> Q;
  np_sqrt : Q -> Q
}.

(** [np_random n] is the [n]-th number produced by numpy's global
    generator; [time_time n] is the value of the [n]-th call of
    [time.time()]. *)
Class World : Type := {
  np_random : nat -> Q;
  time_time : nat -> Q
}.

(** Concrete environments, on which the model can be run. *)
Module Demo.

(** Rational stand-ins for the primitives: angles are kept in degrees and
    [sin], [arcsin] and [sqrt] are replaced by the identity, so that the
    distance is a multiple of the squared Euclidean distance. *)
Definition flat : Numpy := {|
  np_radians := fun x => x;
  np_sin := fun x => x;
  np_cos := fun _ => 1;
  np_arcsin := fun x => x;
  np_sqrt := fun x => x
|}.

Definition draws : list Q :=
  [ 0; 1 # 2; 0; 1 # 5;
    1 # 2; 11 # 20; 1 # 2; 1 # 2;
    1 # 2; 1 # 2; 1 # 2; 1 # 2;
    1 # 2; 1 # 2; 1 # 2; 1 # 4 ].

(** The generator yields [draws], then [1/2] forever; the clock advances by
    one second per call. *)
Definition world : World := {|
  np_random := fun n => nth n draws (1 # 2);
  time_time := fun n => inject_Z (Z.of_nat n)
|}.

(** Two customers on the equator, one degree apart. *)
Definition customers_df : DataFrame :=
  [ Row.mk "A" 1 0 0; Row.mk "B" 150 0 1 ].

End Demo.

Section FacilityPSO.

Context {numpy : Numpy} {world : World}.

(** ** Distance oracle *)

Definition haversine_distance (lat1 lon1 lat2 lon2 : Q) : Q :=
  let R := 6371 in
  let lat1 := np_radians lat1 in
  let lon1 := np_radians lon1 in
  let lat2 := np_radians lat2 in
  let lon2 := np_radians lon2 in
  let dlat := lat2 - lat1 in
  let dlon := lon2 - lon1 in
  let a := (np_sin (dlat / 2)) ^ 2
           + np_cos lat1 * np_cos lat2 * (np_sin (dlon / 2)) ^ 2 in
  let c := 2 * np_arcsin (np_sqrt a) in
  R * c.

(** [np.mean] and [np.std], the population standard deviation. *)
Definition np_mean (l : list Q) : Q := Qsum l / inject_Z (Z.of_nat (List.length l)).

Definition np_std (l : list Q) : Q :=
  let m := np_mean l in
  np_sqrt (np_mean (map (fun x => (x - m) ^ 2) l)).

(** ** Fitness evaluator *)

Definition penalty_factor : Q := 1000000.

(** The inner [for facility in sorted_facilities] loop up to its [break]:
    the first facility, in sorted order, with room for [demand]. *)
Fixpoint first_fit (facility_usage : list Q) (demand facility_capacity : Q)
  (sorted_facilities : list nat) : option nat :=
  match sorted_facilities with
  | [] => None
  | facility :: rest =>
      if Qle_bool (nth facility facility_usage 0 + demand) facility_capacity
      then Some facility
      else first_fit facility_usage demand facility_capacity rest
  end.

Definition distances_to (facility_locations : position) (customer_lat customer_lon : Q)
  : list Q :=
  map (fun fac => haversine_distance customer_lat customer_lon (fst fac) (snd fac))
      facility_locations.

(** The body of [for customer, demand in demands.items()]. *)
Definition assign_customer (facility_locations : position)
  (customer_coords : dict coord) (facility_capacity cost_per_km units_per_load : Q)
  (st : Eval.state) (item : string * Q) : result Eval.state :=
  let (customer, demand) := item in
  match get customer_coords customer with
  | None => Raise KeyError
  | Some (customer_lat, customer_lon) =>
      let distances := distances_to facility_locations customer_lat customer_lon in
      let sorted_facilities := sorted_range_by distances in
      let facility_usage := Eval.facility_usage st in
      match first_fit facility_usage demand facility_capacity sorted_facilities with
      | Some facility =>
          let facility_usage :=
            list_set facility_usage facility (nth facility facility_usage 0 + demand) in
          let distance := nth facility distances 0 in
          if Qeq_bool units_per_load 0 then Raise ZeroDivisionError
          else if float_overflows (demand / units_per_load) then Raise OverflowError
          else
            let loads := math_ceil (demand / units_per_load) in
            let transport_cost := distance * cost_per_km * inject_Z loads in
            Ok (Eval.mk facility_usage
                        (Eval.total_cost st + transport_cost)
                        (set (Eval.assignments st) customer (Some facility)))
      | None =>
          Ok (Eval.mk facility_usage
                      (Eval.total_cost st + penalty_factor)
                      (set (Eval.assignments st) customer None))
      end
  end.

(** [for facility, usage in facility_usage.items(): if usage > 0: ...]. *)
Definition add_fixed_costs (fixed_cost : Q) (facility_usage : list Q) (total_cost : Q)
  : Q :=
  fold_left (fun total usage => if Qltb 0 usage then total + fixed_cost else total)
            facility_usage total_cost.

(** The load-balance term, under its guard
    [len(usage_values) > 1 and len(set(usage_values)) > 1]. *)
Definition add_usage_std (usage_values : list Q) (total_cost : Q) : Q :=
  if ((1 <? List.length usage_values)%nat
      && (1 <? List.length (distinct usage_values))%nat)%bool
  then total_cost + np_std usage_values * 100
  else total_cost.

Definition calculate_total_cost (facility_locations : position)
  (customers : list string) (demands : dict Q) (customer_coords : dict coord)
  (facility_capacity fixed_cost cost_per_km units_per_load : Q)
  : result (Q * dict (option nat)) :=
  let facility_usage := map (fun _ => 0) (seq 0 (List.length facility_locations)) in
  st <- foldM (assign_customer facility_locations customer_coords
                               facility_capacity cost_per_km units_per_load)
              demands (Eval.mk facility_usage 0 []) ;;
  let total_cost := add_fixed_costs fixed_cost (Eval.facility_usage st) (Eval.total_cost st) in
  let usage_values := Eval.facility_usage st in
  let total_cost := add_usage_std usage_values total_cost in
  Ok (total_cost, Eval.assignments st).


(** ** The cost of an assignment, as the specification words it

    These definitions follow the wording of the specification; the
    theorems below compare them with [calculate_total_cost]. *)

Definition demand_of (demands : dict Q) (customer : string) : Q :=
  match get demands customer with
  | Some demand => demand
  | None => 0
  end.

Definition is_assigned (entry : string * option nat) : bool :=
  match snd entry with
  | Some _ => true
  | None => false
  end.

Definition assigned_to (facility : nat) (entry : string * option nat) : bool :=
  match snd entry with
  | Some f => Nat.eqb f facility
  | None => false
  end.

(** The sum of the demands of the customers assigned to [facility]. *)
Definition facility_load (demands : dict Q) (assignments : dict (option nat))
  (facility : nat) : Q :=
  Qsum (map (fun entry => demand_of demands (fst entry))
            (filter (assigned_to facility) assignments)).

Definition usage_of (facility_locations : position) (demands : dict Q)
  (assignments : dict (option nat)) : list Q :=
  map (facility_load demands assignments) (seq 0 (List.length facility_locations)).

(** Distance to the assigned facility, times [cost_per_km], times the number
    of loads, rounded up. *)
Definition transport_cost_of (facility_locations : position) (demands : dict Q)
  (customer_coords : dict coord) (cost_per_km units_per_load : Q)
  (entry : string * option nat) : Q :=
  match snd entry, get customer_coords (fst entry) with
  | Some facility, Some (customer_lat, customer_lon) =>
      let fac := nth facility facility_locations (0, 0) in
      haversine_distance customer_lat customer_lon (fst fac) (snd fac)
      * cost_per_km
      * inject_Z (math_ceil (demand_of demands (fst entry) / units_per_load))
  | _, _ => 0
  end.

Definition transport_part (facility_locations : position) (demands : dict Q)
  (customer_coords : dict coord) (cost_per_km units_per_load : Q)
  (assignments : dict (option nat)) : Q :=
  Qsum (map (transport_cost_of facility_locations demands customer_coords
                               cost_per_km units_per_load)
            (filter is_assigned assignments)).

(** 1,000,000 for each unassigned customer. *)
Definition penalty_part (assignments : dict (option nat)) : Q :=
  Qsum (map (fun _ => 1000000)
            (filter (fun entry => negb (is_assigned entry)) assignments)).

(** [fixed_cost] once for each facility of strictly positive usage. *)
Definition fixed_part (fixed_cost : Q) (usages : list Q) : Q :=
  Qsum (map (fun _ => fixed_cost) (filter (Qltb 0) usages)).

Definition all_equal (l : list Q) : bool :=
  forallb (fun x => forallb (fun y => Qeq_bool x y) l) l.

(** 100 times the population standard deviation of the usages, when there is
    more than one facility and not all usages are equal. *)
Definition balance_part (usages : list Q) : Q :=
  if ((1 <? List.length usages)%nat && negb (all_equal usages))%bool
  then 100 * np_std usages
  else 0.

Definition spec_total_cost (facility_locations : position) (demands : dict Q)
  (customer_coords : dict coord) (fixed_cost cost_per_km units_per_load : Q)
  (assignments : dict (option nat)) : Q :=
  let usages := usage_of facility_locations demands assignments in
  transport_part facility_locations demands customer_coords cost_per_km
                 units_per_load assignments
  + penalty_part assignments
  + fixed_part fixed_cost usages
  + balance_part usages.

(** A coordinate of the closed box spanned by [low] and [high]. *)
Definition in_box (low high : coord) (c : coord) : Prop :=
  (fst low <= fst c <= fst high) /\ (snd low <= snd c <= snd high).

(** ** Swarm optimizer *)

(** [np.random.rand(n_facilities, 2)], when [draws] numbers are consumed. *)
Definition random_rand (draws n_facilities : nat) : position :=
  map (fun j => (np_random (draws + 2 * j)%nat, np_random (draws + 2 * j + 1)%nat))
      (seq 0 n_facilities).

(** [np.random.uniform(low, high, size=(n_particles, n_facilities, 2))]:
    [low + (high - low) * u] for each number [u] drawn. *)
Definition random_uniform (draws : nat) (low high : coord)
  (n_particles n_facilities : nat) : list position :=
  map (fun i =>
         map (fun u => (fst low + (fst high - fst low) * fst u,
                        snd low + (snd high - snd low) * snd u))
             (random_rand (draws + i * (2 * n_facilities))%nat n_facilities))
      (seq 0 n_particles).

Section Run.

Variable customers_df : DataFrame.
Variable n_facilities : nat.
Variables facility_capacity fixed_cost cost_per_km units_per_load : Q.
Variables n_particles n_iterations : nat.
Variable max_run_time_seconds : Q.
Variables inertia_weight cognitive_coefficient social_coefficient : Q.

Definition customers : list string := map Row.CustomerID customers_df.

Definition demands : dict Q := of_zip customers (map Row.Demand customers_df).

Definition customer_coords : dict coord :=
  of_zip customers
         (combine (map Row.Latitude customers_df) (map Row.Longitude customers_df)).

(** The score of a position: [calculate_total_cost(p, ...)[0]]. *)
Definition score_of (p : position) : result Q :=
  '(score, _) <- calculate_total_cost p customers demands customer_coords
                   facility_capacity fixed_cost cost_per_km units_per_load ;;
  Ok score.

(** The body of [for i in range(n_particles)]. *)
Definition update_particle (low high : coord) (global_best_position : array_ref)
  (current_inertia_weight : Q) (sw : Swarm.state) (i : nat) : result Swarm.state :=
  let velocity := nth i (Swarm.velocities sw) [] in
  let particle := nth i (Swarm.particles sw) [] in
  let inertia := arr_scale current_inertia_weight velocity in
  let cognitive_component :=
    arr_mul (arr_scale cognitive_coefficient (random_rand (Swarm.draws sw) n_facilities))
            (arr_sub (nth i (Swarm.personal_best_positions sw) []) particle) in
  let social_component :=
    arr_mul (arr_scale social_coefficient
                       (random_rand (Swarm.draws sw + 2 * n_facilities)%nat n_facilities))
            (arr_sub (deref (Swarm.personal_best_positions sw) global_best_position)
                     particle) in
  let velocity := arr_add (arr_add inertia cognitive_component) social_component in
  let particle := arr_add particle velocity in
  let particle := np_clip particle low high in
  score <- score_of particle ;;
  let draws := (Swarm.draws sw + 4 * n_facilities)%nat in
  let velocities := list_set (Swarm.velocities sw) i velocity in
  let particles := list_set (Swarm.particles sw) i particle in
  if Qltb score (nth i (Swarm.personal_best_scores sw) 0)
  then Ok (Swarm.mk draws particles velocities
                    (list_set (Swarm.personal_best_positions sw) i particle)
                    (list_set (Swarm.personal_best_scores sw) i score))
  else Ok (Swarm.mk draws particles velocities
                    (Swarm.personal_best_positions sw)
                    (Swarm.personal_best_scores sw)).

(** The sweep [for i in range(n_particles)] of one iteration. *)
Definition sweep (low high : coord) (global_best_position : array_ref)
  (current_inertia_weight : Q) (sw : Swarm.state) : result Swarm.state :=
  foldM (update_particle low high global_best_position current_inertia_weight)
        (seq 0 n_particles) sw.

(** [max(0.4, current_inertia_weight * 0.99)]. *)
Definition decay_inertia (current_inertia_weight : Q) : Q :=
  py_max (4 # 10) (current_inertia_weight * (99 # 100)).

(** One iteration of the main loop, after its time check. *)
Definition iteration_body (start_time : Q) (low high : coord) (iteration : nat)
  (st : Loop.state) : result Loop.state :=
  sw <- sweep low high (Loop.global_best_position st)
              (Loop.current_inertia_weight st) (Loop.swarm st) ;;
  best_particle_index <- np_argmin (Swarm.personal_best_scores sw) ;;
  let best := nth best_particle_index (Swarm.personal_best_scores sw) 0 in
  let improved := Qltb best (Loop.global_best_score st) in
  let global_best_position :=
    if improved
    then Owned (nth best_particle_index (Swarm.personal_best_positions sw) [])
    else Loop.global_best_position st in
  let global_best_score := if improved then best else Loop.global_best_score st in
  let current_inertia_weight := decay_inertia (Loop.current_inertia_weight st) in
  let entry :=
    Hist.mk iteration global_best_score
            (time_time (Loop.clock_reads st) - start_time) in
  Ok (Loop.mk sw global_best_position global_best_score current_inertia_weight
              (Loop.history st ++ [entry]) (iteration + 1)%nat
              (S (Loop.clock_reads st))).

(** A call of [time.time()]: one more value of the clock is consumed. *)
Definition tick (st : Loop.state) : Loop.state :=
  Loop.mk (Loop.swarm st) (Loop.global_best_position st)
          (Loop.global_best_score st) (Loop.current_inertia_weight st)
          (Loop.history st) (Loop.completed_iterations st)
          (S (Loop.clock_reads st)).

(** [for iteration in range(n_iterations)], with its [break]. *)
Fixpoint run_iterations (start_time : Q) (low high : coord) (iterations : list nat)
  (st : Loop.state) : result Loop.state :=
  match iterations with
  | [] => Ok st
  | iteration :: rest =>
      let now := time_time (Loop.clock_reads st) in
      let st := tick st in
      if Qltb max_run_time_seconds (now - start_time) then Ok st
      else
        st <- iteration_body start_time low high iteration st ;;
        run_iterations start_time low high rest st
  end.

(** The state on entry to the main loop; the first call of [time.time]
    has been made. *)
Definition initial_state (low high : coord) : result Loop.state :=
  let particles := random_uniform 0 low high n_particles n_facilities in
  let velocities :=
    random_uniform (n_particles * (2 * n_facilities)) (-(1), -(1)) (1, 1)
                   n_particles n_facilities in
  let personal_best_positions := particles in
  personal_best_scores <- mapM score_of personal_best_positions ;;
  global_best_index <- np_argmin personal_best_scores ;;
  let global_best_position := RowView global_best_index in
  let global_best_score := nth global_best_index personal_best_scores 0 in
  let current_inertia_weight := inertia_weight in
  Ok (Loop.mk (Swarm.mk (2 * (n_particles * (2 * n_facilities)))
                        particles velocities
                        personal_best_positions personal_best_scores)
              global_best_position global_best_score current_inertia_weight
              [] 0 1).

(** The bounding box [(lat_bounds[0], lon_bounds[0])],
    [(lat_bounds[1], lon_bounds[1])].  [np.random.uniform] raises
    [OverflowError] unless every [high - low] is finite: an empty table has
    NaN bounds, and a range beyond the doubles is infinite. *)
Definition bounds : result (coord * coord) :=
  let lats := map Row.Latitude customers_df in
  let lons := map Row.Longitude customers_df in
  match series_min lats, series_max lats, series_min lons, series_max lons with
  | Some lat0, Some lat1, Some lon0, Some lon1 =>
      if float_overflows (lat1 - lat0) || float_overflows (lon1 - lon0)
      then Raise OverflowError
      else Ok ((lat0, lon0), (lat1, lon1))
  | _, _, _, _ => Raise OverflowError
  end.

Definition facility_records (global_best_position : position) : list Fac.t :=
  map (fun ic => Fac.mk (facility_id (fst ic)) (fst (snd ic)) (snd (snd ic)))
      (combine (seq 0 (List.length global_best_position)) global_best_position).

Definition assignment_records (final_assignments : dict (option nat))
  : result (list Asg.t) :=
  mapM (fun cf : string * option nat =>
          let (customer, facility) := cf in
          match get demands customer with
          | None => Raise KeyError
          | Some demand =>
              Ok (Asg.mk customer
                         (match facility with
                          | Some facility => Some (facility_id facility)
                          | None => None
                          end)
                         demand)
          end)
       final_assignments.

Definition optimize_facility_locations_pso : result Result.t :=
  let start_time := time_time 0 in
  '(low, high) <- bounds ;;
  st0 <- initial_state low high ;;
  st <- run_iterations start_time low high (seq 0 n_iterations) st0 ;;
  let global_best_position :=
    deref (Swarm.personal_best_positions (Loop.swarm st))
          (Loop.global_best_position st) in
  '(total_cost, final_assignments) <-
     calculate_total_cost global_best_position customers demands customer_coords
       facility_capacity fixed_cost cost_per_km units_per_load ;;
  let facility_locations := facility_records global_best_position in
  assignments_list <- assignment_records final_assignments ;;
  let total_time := time_time (Loop.clock_reads st) - start_time in
  Ok (Result.mk "Optimal" total_cost facility_locations assignments_list
                (Loop.history st) (Loop.completed_iterations st) total_time).

End Run.

(** The invariant of the customer loop: the state after the customers of
    [pre], for the dictionary [demands] being traversed. *)
Definition eval_inv (fl : position) (demands : dict Q) (coords : dict coord)
  (capacity cpk upl : Q) (pre : dict Q) (st : Eval.state) : Prop :=
  keys (Eval.assignments st) = keys pre
  /\ List.length (Eval.facility_usage st) = List.length fl
  /\ (forall f, nth f (Eval.facility_usage st) 0
                = facility_load demands (Eval.assignments st) f)
  /\ Eval.total_cost st
     == transport_part fl demands coords cpk upl (Eval.assignments st)
        + penalty_part (Eval.assignments st)
  /\ (forall f, 0 <= capacity \/ (exists c, In (c, Some f) (Eval.assignments st)) ->
                nth f (Eval.facility_usage st) 0 <= capacity)
  /\ ((forall c d, In (c, d) demands -> 0 <= d) ->
      (forall f, 0 <= nth f (Eval.facility_usage st) 0)
      /\ (forall c d, In (c, d) pre -> capacity < d ->
                      In (c, None) (Eval.assignments st)))
  /\ (forall c f, In (c, Some f) (Eval.assignments st) -> (f < List.length fl)%nat).

(** Invariants of the iteration loop. *)

Definition rows_in_box (low high : coord) (rows : list position) : Prop :=
  Forall (Forall (in_box low high)) rows.

Definition ref_in_box (low high : coord) (r : array_ref) : Prop :=
  match r with
  | RowView _ => True
  | Owned p => Forall (in_box low high) p
  end.

Definition box_inv (low high : coord) (st : Loop.state) : Prop :=
  rows_in_box low high (Swarm.personal_best_positions (Loop.swarm st))
  /\ ref_in_box low high (Loop.global_best_position st).

(** The recorded best scores never increase, and none is below the
    current global best score. *)
Definition history_desc (st : Loop.state) : Prop :=
  (forall e, In e (Loop.history st) -> Loop.global_best_score st <= Hist.best_score e)
  /\ (forall k e1 e2,
         nth_error (Loop.history st) k = Some e1 ->
         nth_error (Loop.history st) (S k) = Some e2 ->
         Hist.best_score e2 <= Hist.best_score e1).

(** The bookkeeping of the loop on entry to iteration [a], for the initial
    inertia weight [w0]. *)
Definition count_inv (w0 : Q) (a : nat) (st : Loop.state) : Prop :=
  Loop.completed_iterations st = a
  /\ List.length (Loop.history st) = a
  /\ (forall k e, nth_error (Loop.history st) k = Some e -> Hist.iteration e = k)
  /\ Loop.current_inertia_weight st = Nat.iter a decay_inertia w0.

(** [closer keys g f]: index [g] comes before index [f] in
    [sorted(range(len(keys)), key=lambda k: keys[k])], that is, its key is
    smaller, or equal with [g] the smaller index. *)
Definition closer (keys : list Q) (g f : nat) : Prop :=
  nth g keys 0 < nth f keys 0 \/ (nth g keys 0 == nth f keys 0 /\ (g < f)%nat).

(** The choice the evaluator makes for customer [c] of demand [d], when
    [before g] is the usage of facility [g] at that time: the first facility
    with room in the order of distance (ties by index), or none when no
    facility has room. *)
Definition nearest_with_room (fl : position) (customer_coords : dict coord)
  (capacity : Q) (before : nat -> Q) (c : string) (d : Q) (choice : option nat)
  : Prop :=
  exists lat lon,
    get customer_coords c = Some (lat, lon)
    /\ match choice with
       | Some f =>
           (f < List.length fl)%nat
           /\ before f + d <= capacity
           /\ forall g, (g < List.length fl)%nat ->
                        closer (distances_to fl lat lon) g f ->
                        capacity < before g + d
       | None => forall g, (g < List.length fl)%nat -> capacity < before g + d
       end.

(** The shape of the swarm arrays: [n_particles] rows, each of
    [n_facilities] coordinates, and as many personal best scores. *)
Definition shape_inv (n_particles n_facilities : nat) (sw : Swarm.state) : Prop :=
  List.length (Swarm.particles sw) = n_particles
  /\ List.length (Swarm.velocities sw) = n_particles
  /\ List.length (Swarm.personal_best_positions sw) = n_particles
  /\ List.length (Swarm.personal_best_scores sw) = n_particles
  /\ Forall (fun p => List.length p = n_facilities) (Swarm.particles sw)
  /\ Forall (fun p => List.length p = n_facilities) (Swarm.velocities sw)
  /\ Forall (fun p => List.length p = n_facilities) (Swarm.personal_best_positions sw).

Definition ref_shape (n_particles n_facilities : nat) (r : array_ref) : Prop :=
  match r with
  | RowView g => (g < n_particles)%nat
  | Owned p => List.length p = n_facilities
  end.


(** The scores kept by the loop are the scores of the positions kept: each
    personal best score is the cost of the personal best position, the
    global best score is the cost of the position the global best reference
    reads, and the last history entry records the global best score. *)
Definition score_inv (customers_df : DataFrame)
  (facility_capacity fixed_cost cost_per_km units_per_load : Q)
  (st : Loop.state) : Prop :=
  let positions := Swarm.personal_best_positions (Loop.swarm st) in
  let scores := Swarm.personal_best_scores (Loop.swarm st) in
  List.length scores = List.length positions
  /\ (forall i, (i < List.length positions)%nat ->
                score_of customers_df facility_capacity fixed_cost cost_per_km
                         units_per_load (nth i positions [])
                = Ok (nth i scores 0))
  /\ match Loop.global_best_position st with
     | RowView g =>
         (g < List.length positions)%nat
         /\ Loop.global_best_score st = nth g scores 0
     | Owned p =>
         score_of customers_df facility_capacity fixed_cost cost_per_km
                  units_per_load p
         = Ok (Loop.global_best_score st)
     end
  /\ (forall e,
         nth_error (Loop.history st) (pred (List.length (Loop.history st))) = Some e ->
         Hist.best_score e = Loop.global_best_score st).

(** * Theorems *)

(** ** Results and loops *)

Lemma bind_Ok {A B : Type} (m : result A) (k : A -> result B) (b : B) :
  bind m k = Ok b -> exists a, m = Ok a /\ k a = Ok b.
Proof.
  destruct m as [a | e]; simpl; intros H; [eauto | discriminate].
Qed.

Tactic Notation "inv_bind" hyp(H) "as" ident(a) ident(Ha) :=
  apply bind_Ok in H; destruct H as (a & Ha & H).

(** An invariant of a [for] loop, indexed by the processed prefix. *)
Lemma foldM_invariant {A S : Type} (body : S -> A -> result S)
  (P : list A -> S -> Prop) (l : list A) (s0 : S) :
  P [] s0 ->
  (forall pre a rest s s',
      l = pre ++ a :: rest -> P pre s -> body s a = Ok s' -> P (pre ++ [a]) s') ->
  forall s', foldM body l s0 = Ok s' -> P l s'.
Proof.
  intros H0 Hstep.
  assert (G : forall todo pre s s',
             l = pre ++ todo -> P pre s -> foldM body todo s = Ok s' -> P l s').
  { induction todo as [| a todo IH]; intros pre s s' El Hp Hf; simpl in Hf.
    - injection Hf as <-. rewrite El, app_nil_r. exact Hp.
    - inv_bind Hf as s1 Hs1.
      apply (IH (pre ++ [a]) s1 s'); [ | | exact Hf].
      + rewrite <- app_assoc. exact El.
      + eapply Hstep; eauto. }
  intros s' Hf. exact (G l [] s0 s' eq_refl H0 Hf).
Qed.

Lemma foldM_total {A S : Type} (body : S -> A -> result S) (P : S -> Prop)
  (l : list A) :
  (forall s a, In a l -> P s -> exists s', body s a = Ok s' /\ P s') ->
  forall s, P s -> exists s', foldM body l s = Ok s' /\ P s'.
Proof.
  induction l as [| a l IH]; intros Hb s Hs; simpl.
  - eauto.
  - destruct (Hb s a (or_introl eq_refl) Hs) as (s1 & E1 & P1).
    rewrite E1. simpl. apply IH; [ | exact P1].
    intros s2 b Hin. apply Hb. right. exact Hin.
Qed.

Lemma mapM_Ok_length {A B : Type} (f : A -> result B) (l : list A) (bs : list B) :
  mapM f l = Ok bs -> List.length bs = List.length l.
Proof.
  revert bs. induction l as [| a l IH]; intros bs H; simpl in H.
  - injection H as <-. reflexivity.
  - inv_bind H as b Hb. inv_bind H as bs' Hbs. injection H as <-.
    simpl. f_equal. apply IH. exact Hbs.
Qed.

Lemma mapM_Ok_nth {A B : Type} (f : A -> result B) (l : list A) (bs : list B)
  (i : nat) (da : A) (db : B) :
  mapM f l = Ok bs -> (i < List.length l)%nat -> f (nth i l da) = Ok (nth i bs db).
Proof.
  revert bs i. induction l as [| a l IH]; intros bs i H Hi; simpl in *.
  - lia.
  - inv_bind H as b Hb. inv_bind H as bs' Hbs. injection H as <-.
    destruct i as [| i]; simpl; [exact Hb | apply IH; [exact Hbs | lia]].
Qed.


(** ** Comparisons *)

Lemma Qltb_lt (x y : Q) : Qltb x y = true <-> x < y.
Proof.
  unfold Qltb. rewrite negb_true_iff. split; intros H.
  - apply Qnot_le_lt. intros Hle. apply Qle_bool_iff in Hle. congruence.
  - destruct (Qle_bool y x) eqn:E; [ | reflexivity].
    apply Qle_bool_iff in E. exfalso. apply (Qlt_not_le _ _ H E).
Qed.

Lemma Qltb_ge (x y : Q) : Qltb x y = false <-> y <= x.
Proof.
  unfold Qltb. rewrite negb_false_iff. apply Qle_bool_iff.
Qed.

Lemma Qsum_app (l : list Q) (x : Q) : Qsum (l ++ [x]) = Qsum l + x.
Proof.
  unfold Qsum. rewrite fold_left_app. reflexivity.
Qed.

(** ** Arrays *)

Lemma list_set_length {A : Type} (l : list A) (i : nat) (x : A) :
  List.length (list_set l i x) = List.length l.
Proof.
  revert i. induction l as [| y l IH]; intros [| i]; simpl; auto.
Qed.

Lemma nth_list_set {A : Type} (l : list A) (i j : nat) (x d : A) :
  (i < List.length l)%nat ->
  nth j (list_set l i x) d = if Nat.eqb j i then x else nth j l d.
Proof.
  revert i j. induction l as [| y l IH]; intros i j Hi; simpl in Hi; [lia | ].
  destruct i as [| i], j as [| j]; simpl; try reflexivity.
  apply IH. lia.
Qed.

Lemma list_set_out_of_range {A : Type} (l : list A) (i : nat) (x : A) :
  (List.length l <= i)%nat -> list_set l i x = l.
Proof.
  revert i. induction l as [| y l IH]; intros [| i] H; simpl in *;
    try reflexivity; [lia | ].
  f_equal. apply IH. lia.
Qed.

Lemma In_list_set {A : Type} (l : list A) (i : nat) (x y : A) :
  In y (list_set l i x) -> y = x \/ In y l.
Proof.
  revert i. induction l as [| z l IH]; intros [| i]; simpl; intuition.
  destruct (IH _ H0); auto.
Qed.

(** ** Dictionaries *)

Lemma get_In {V : Type} (d : dict V) (k : string) (v : V) :
  NoDup (keys d) -> In (k, v) d -> get d k = Some v.
Proof.
  induction d as [| [k' v'] d IH]; simpl; intros Hnd Hin; [contradiction | ].
  inversion Hnd as [| ? ? Hnotin Hnd']; subst.
  destruct Hin as [E | Hin].
  - injection E as -> ->. rewrite String.eqb_refl. reflexivity.
  - destruct (String.eqb_spec k k') as [-> | _].
    + exfalso. apply Hnotin. apply (in_map fst) in Hin. exact Hin.
    + apply IH; assumption.
Qed.

Lemma get_None {V : Type} (d : dict V) (k : string) :
  get d k = None <-> ~ In k (keys d).
Proof.
  induction d as [| [k' v'] d IH]; simpl.
  - tauto.
  - destruct (String.eqb_spec k k') as [-> | Hne].
    + split; [discriminate | intros H; exfalso; apply H; left; reflexivity].
    + rewrite IH. split; intros H; [intros [E | Hin]; [congruence | tauto] | tauto].
Qed.

Lemma set_fresh {V : Type} (d : dict V) (k : string) (v : V) :
  ~ In k (keys d) -> set d k v = d ++ [(k, v)].
Proof.
  induction d as [| [k' v'] d IH]; simpl; intros H; [reflexivity | ].
  destruct (String.eqb_spec k k') as [-> | _]; [tauto | ].
  rewrite IH; [reflexivity | tauto].
Qed.

Lemma keys_set {V : Type} (d : dict V) (k : string) (v : V) (x : string) :
  In x (keys (set d k v)) <-> x = k \/ In x (keys d).
Proof.
  induction d as [| [k' v'] d IH]; simpl.
  - intuition.
  - destruct (String.eqb_spec k k') as [-> | Hne]; simpl.
    + intuition.
    + rewrite IH. intuition.
Qed.

Lemma keys_of_zip {V : Type} (ks : list string) (vs : list V) (x : string) :
  In x (keys (of_zip ks vs)) <-> In x (map fst (combine ks vs)).
Proof.
  unfold of_zip.
  assert (G : forall (l : list (string * V)) d,
             In x (keys (fold_left (fun d kv => set d (fst kv) (snd kv)) l d))
             <-> In x (keys d) \/ In x (map fst l)).
  { induction l as [| [k v] l IH]; intros d; simpl.
    - tauto.
    - rewrite IH, keys_set. intuition. }
  rewrite G. simpl. tauto.
Qed.

Lemma map_fst_combine {A B : Type} (l : list A) (l' : list B) :
  List.length l = List.length l' -> map fst (combine l l') = l.
Proof.
  revert l'. induction l as [| a l IH]; intros [| b l'] H; simpl in *;
    try discriminate; [reflexivity | ].
  f_equal. apply IH. lia.
Qed.

(** ** The sorted facility indices are the facility indices *)

Lemma In_insert_by_key (ks : list Q) (k x : nat) (sorted : list nat) :
  In x (insert_by_key ks k sorted) <-> x = k \/ In x sorted.
Proof.
  induction sorted as [| j rest IH]; simpl.
  - intuition.
  - destruct (Qle_bool (nth k ks 0) (nth j ks 0)); simpl; intuition.
Qed.

Lemma In_sorted_range_by (ks : list Q) (x : nat) :
  In x (sorted_range_by ks) <-> (x < List.length ks)%nat.
Proof.
  unfold sorted_range_by.
  assert (G : forall l, In x (fold_right (insert_by_key ks) [] l) <-> In x l).
  { induction l as [| k l IH]; simpl; [tauto | ].
    rewrite In_insert_by_key, IH. intuition. }
  rewrite G, in_seq. lia.
Qed.

(** ** The customer loop of the fitness evaluator *)

Lemma first_fit_Some (usage : list Q) (demand capacity : Q) (l : list nat) (f : nat) :
  first_fit usage demand capacity l = Some f ->
  In f l /\ nth f usage 0 + demand <= capacity.
Proof.
  induction l as [| g l IH]; simpl; [discriminate | ].
  destruct (Qle_bool (nth g usage 0 + demand) capacity) eqn:E.
  - intros [= <-]. split; [left; reflexivity | apply Qle_bool_iff; exact E].
  - intros H. destruct (IH H). split; [right | ]; assumption.
Qed.

Lemma first_fit_None (usage : list Q) (demand capacity : Q) (l : list nat) :
  (forall f, In f l -> capacity < nth f usage 0 + demand) ->
  first_fit usage demand capacity l = None.
Proof.
  induction l as [| g l IH]; simpl; intros H; [reflexivity | ].
  destruct (Qle_bool (nth g usage 0 + demand) capacity) eqn:E.
  - apply Qle_bool_iff in E. specialize (H g (or_introl eq_refl)). lra.
  - apply IH. intros f Hf. apply H. right. exact Hf.
Qed.

Lemma nth_zeros {A : Type} (l : list A) (f : nat) :
  nth f (map (fun _ => 0) l) 0 = 0.
Proof.
  revert f. induction l as [| a l IH]; intros [| f]; simpl; auto.
Qed.

Lemma nth_distances_to (fl : position) (lat lon : Q) (f : nat) :
  (f < List.length fl)%nat ->
  nth f (distances_to fl lat lon) 0
  = haversine_distance lat lon (fst (nth f fl (0, 0))) (snd (nth f fl (0, 0))).
Proof.
  intros Hf. unfold distances_to.
  rewrite (nth_indep _ 0 (haversine_distance lat lon (fst (0, 0)) (snd (0, 0))))
    by (rewrite length_map; exact Hf).
  apply (map_nth (fun fac => haversine_distance lat lon (fst fac) (snd fac))).
Qed.

(** What one pass of the loop body does. *)
Lemma assign_customer_Ok (fl : position) (coords : dict coord)
  (capacity cpk upl : Q) (st st' : Eval.state) (c : string) (d : Q) :
  assign_customer fl coords capacity cpk upl st (c, d) = Ok st' ->
  exists lat lon,
    get coords c = Some (lat, lon) /\
    ((exists f,
         (f < List.length fl)%nat /\
         nth f (Eval.facility_usage st) 0 + d <= capacity /\
         ~ upl == 0 /\
         st' = Eval.mk
                 (list_set (Eval.facility_usage st) f
                           (nth f (Eval.facility_usage st) 0 + d))
                 (Eval.total_cost st
                  + haversine_distance lat lon (fst (nth f fl (0, 0)))
                                       (snd (nth f fl (0, 0)))
                    * cpk * inject_Z (math_ceil (d / upl)))
                 (set (Eval.assignments st) c (Some f)))
     \/ (first_fit (Eval.facility_usage st) d capacity
                   (sorted_range_by (distances_to fl lat lon)) = None /\
         st' = Eval.mk (Eval.facility_usage st)
                       (Eval.total_cost st + penalty_factor)
                       (set (Eval.assignments st) c None))).
Proof.
  unfold assign_customer.
  destruct (get coords c) as [[lat lon] | ]; [ | discriminate].
  intros H. exists lat, lon. split; [reflexivity | ].
  destruct (first_fit _ _ _ _) as [f | ] eqn:Ef.
  - left. exists f. apply first_fit_Some in Ef. destruct Ef as [Hin Hle].
    apply In_sorted_range_by in Hin.
    assert (Hf : (f < List.length fl)%nat)
      by (unfold distances_to in Hin; rewrite length_map in Hin; exact Hin).
    destruct (Qeq_bool upl 0) eqn:Eu; [discriminate | ].
    destruct (float_overflows (d / upl)); [discriminate | ].
    injection H as <-. rewrite nth_distances_to by exact Hf.
    repeat split; try assumption.
    intros Hz. apply Qeq_bool_iff in Hz. congruence.
  - right. injection H as <-. split; reflexivity.
Qed.

Lemma filter_snoc {A : Type} (p : A -> bool) (l : list A) (a : A) :
  filter p (l ++ [a]) = if p a then filter p l ++ [a] else filter p l.
Proof.
  rewrite filter_app. simpl. destruct (p a); [reflexivity | apply app_nil_r].
Qed.

Lemma facility_load_snoc (demands : dict Q) (asg : dict (option nat))
  (c : string) (o : option nat) (g : nat) :
  facility_load demands (asg ++ [(c, o)]) g
  = if assigned_to g (c, o)
    then facility_load demands asg g + demand_of demands c
    else facility_load demands asg g.
Proof.
  unfold facility_load. rewrite filter_snoc.
  destruct (assigned_to g (c, o)); [ | reflexivity].
  rewrite map_app. simpl. apply Qsum_app.
Qed.

Lemma transport_part_snoc (fl : position) (demands : dict Q) (coords : dict coord)
  (cpk upl : Q) (asg : dict (option nat)) (e : string * option nat) :
  transport_part fl demands coords cpk upl (asg ++ [e])
  = if is_assigned e
    then transport_part fl demands coords cpk upl asg
         + transport_cost_of fl demands coords cpk upl e
    else transport_part fl demands coords cpk upl asg.
Proof.
  unfold transport_part. rewrite filter_snoc.
  destruct (is_assigned e); [ | reflexivity].
  rewrite map_app. simpl. apply Qsum_app.
Qed.

Lemma penalty_part_snoc (asg : dict (option nat)) (e : string * option nat) :
  penalty_part (asg ++ [e])
  = if is_assigned e then penalty_part asg else penalty_part asg + 1000000.
Proof.
  unfold penalty_part. rewrite filter_snoc.
  destruct (is_assigned e); simpl; [reflexivity | ].
  rewrite map_app. simpl. apply Qsum_app.
Qed.

Lemma eval_inv_init (fl : position) (demands : dict Q) (coords : dict coord)
  (capacity cpk upl : Q) :
  eval_inv fl demands coords capacity cpk upl []
           (Eval.mk (map (fun _ => 0) (seq 0 (List.length fl))) 0 []).
Proof.
  unfold eval_inv. simpl. repeat split.
  - rewrite length_map, length_seq. reflexivity.
  - intros f. apply nth_zeros.
  - intros f [H | (c & [])]. rewrite nth_zeros. exact H.
  - intros f. rewrite nth_zeros. lra.
  - intros c d [].
  - intros c f [].
Qed.

Lemma eval_inv_step (fl : position) (demands : dict Q) (coords : dict coord)
  (capacity cpk upl : Q) (pre rest : dict Q) (c : string) (d : Q)
  (st st' : Eval.state) :
  NoDup (keys demands) ->
  demands = pre ++ (c, d) :: rest ->
  eval_inv fl demands coords capacity cpk upl pre st ->
  assign_customer fl coords capacity cpk upl st (c, d) = Ok st' ->
  eval_inv fl demands coords capacity cpk upl (pre ++ [(c, d)]) st'.
Proof.
  intros Hnd Ed (Hk & Hlen & Hload & Hcost & Hcap & Hpos & Hrange) Hstep.
  assert (Hin : In (c, d) demands) by (rewrite Ed; apply in_elt).
  assert (Hd : demand_of demands c = d)
    by (unfold demand_of; rewrite (get_In _ _ _ Hnd Hin); reflexivity).
  assert (Hfresh : ~ In c (keys (Eval.assignments st))).
  { rewrite Hk. rewrite Ed in Hnd. unfold keys in *. rewrite map_app in Hnd.
    simpl in Hnd. apply NoDup_remove_2 in Hnd. intros Hc. apply Hnd.
    apply in_or_app. left. exact Hc. }
  assert (Hkeys : forall o, keys (Eval.assignments st ++ [(c, o)]) = keys (pre ++ [(c, d)])).
  { intros o. unfold keys in *. rewrite !map_app, Hk. reflexivity. }
  apply assign_customer_Ok in Hstep.
  destruct Hstep as (lat & lon & Ecoord & [(f & Hf & Hfit & Hupl & ->) | (Hnone & ->)]);
    unfold eval_inv; simpl; rewrite (set_fresh _ _ _ Hfresh).
  - (* assigned to [f] *)
    assert (Hf' : (f < List.length (Eval.facility_usage st))%nat) by (rewrite Hlen; exact Hf).
    repeat split.
    + apply Hkeys.
    + rewrite list_set_length. exact Hlen.
    + intros g. rewrite nth_list_set by exact Hf'. rewrite facility_load_snoc.
      unfold assigned_to; simpl. rewrite (Nat.eqb_sym g f).
      destruct (Nat.eqb_spec f g) as [<- | _].
      * rewrite Hload, Hd. reflexivity.
      * apply Hload.
    + rewrite transport_part_snoc, penalty_part_snoc. simpl.
      unfold transport_cost_of. simpl. rewrite Ecoord, Hd. rewrite Hcost.
      ring.
    + intros g Hg. rewrite nth_list_set by exact Hf'.
      destruct (Nat.eqb_spec g f) as [-> | Hne]; [exact Hfit | ].
      apply Hcap. destruct Hg as [Hg | (c' & Hc')]; [left; exact Hg | ].
      right. exists c'. apply in_app_or in Hc'. destruct Hc' as [Hc' | [E | []]];
        [exact Hc' | congruence].
    + intros g. destruct (Hpos H) as [Hge _]. rewrite nth_list_set by exact Hf'.
      destruct (Nat.eqb_spec g f) as [-> | Hne]; [ | apply Hge].
      specialize (Hge f). specialize (H c d Hin). lra.
    + intros c' d' Hin' Hbig. destruct (Hpos H) as [Hge Hun].
      apply in_or_app. apply in_app_or in Hin'.
      destruct Hin' as [Hin' | [E | []]].
      * left. eapply Hun; eassumption.
      * injection E as <- <-. specialize (Hge f). lra.
    + intros c' g Hin'. apply in_app_or in Hin'.
      destruct Hin' as [Hin' | [E | []]]; [eapply Hrange; exact Hin' | ].
      injection E as _ <-. exact Hf.
  - (* unassigned *)
    repeat split.
    + apply Hkeys.
    + exact Hlen.
    + intros g. rewrite facility_load_snoc. unfold assigned_to; simpl. apply Hload.
    + rewrite transport_part_snoc, penalty_part_snoc. simpl. rewrite Hcost.
      unfold penalty_factor. ring.
    + intros g Hg. apply Hcap. destruct Hg as [Hg | (c' & Hc')]; [left; exact Hg | ].
      right. exists c'. apply in_app_or in Hc'. destruct Hc' as [Hc' | [E | []]];
        [exact Hc' | discriminate].
    + apply (Hpos H).
    + intros c' d' Hin' Hbig. destruct (Hpos H) as [Hge Hun].
      apply in_or_app. apply in_app_or in Hin'.
      destruct Hin' as [Hin' | [E | []]].
      * left. eapply Hun; eassumption.
      * injection E as <- <-. right. left. reflexivity.
    + intros c' g Hin'. apply in_app_or in Hin'.
      destruct Hin' as [Hin' | [E | []]]; [eapply Hrange; exact Hin' | discriminate].
Qed.

Lemma eval_loop_inv (fl : position) (demands : dict Q) (coords : dict coord)
  (capacity cpk upl : Q) (st : Eval.state) :
  NoDup (keys demands) ->
  foldM (assign_customer fl coords capacity cpk upl) demands
        (Eval.mk (map (fun _ => 0) (seq 0 (List.length fl))) 0 []) = Ok st ->
  eval_inv fl demands coords capacity cpk upl demands st.
Proof.
  intros Hnd. apply foldM_invariant.
  - apply eval_inv_init.
  - intros pre [c d] rest s s' Ed Hinv Hstep.
    eapply eval_inv_step; eassumption.
Qed.

(** ** The closing terms of the cost *)

Lemma fold_left_Qplus (l : list Q) (a : Q) :
  fold_left Qplus l a == a + Qsum l.
Proof.
  unfold Qsum. revert a. induction l as [| x l IH]; intros a; simpl.
  - ring.
  - rewrite (IH (a + x)), (IH (0 + x)). ring.
Qed.

Lemma Qsum_cons (x : Q) (l : list Q) : Qsum (x :: l) == x + Qsum l.
Proof.
  unfold Qsum at 1. simpl. rewrite fold_left_Qplus. ring.
Qed.

Lemma Qsum_const (k : Q) {A : Type} (l : list A) :
  Qsum (map (fun _ => k) l) == k * inject_Z (Z.of_nat (List.length l)).
Proof.
  induction l as [| a l IH].
  - simpl. unfold Qsum; simpl. ring.
  - cbn [map List.length]. rewrite Qsum_cons, IH, Nat2Z.inj_succ.
    unfold Z.succ. rewrite inject_Z_plus. ring.
Qed.

Lemma add_fixed_costs_spec (fixed_cost : Q) (usages : list Q) (total : Q) :
  add_fixed_costs fixed_cost usages total == total + fixed_part fixed_cost usages.
Proof.
  unfold add_fixed_costs, fixed_part. revert total.
  induction usages as [| u us IH]; intros total; simpl.
  - unfold Qsum; simpl. ring.
  - rewrite IH. destruct (Qltb 0 u); simpl.
    + rewrite Qsum_cons. ring.
    + reflexivity.
Qed.

Lemma In_distinct (l : list Q) (y : Q) : In y (distinct l) -> In y l.
Proof.
  revert y. induction l as [| x l IH]; simpl; intros y; [tauto | ].
  intros [E | H]; [left; exact E | ].
  apply filter_In in H. right. apply IH. tauto.
Qed.

Lemma distinct_covers (l : list Q) (y : Q) :
  In y l -> exists z, In z (distinct l) /\ y == z.
Proof.
  induction l as [| x l IH]; simpl; [tauto | ].
  intros [-> | H].
  - exists y. split; [left; reflexivity | reflexivity].
  - destruct (IH H) as (z & Hz & Eyz).
    destruct (Qeq_bool z x) eqn:E.
    + exists x. split; [left; reflexivity | ].
      apply Qeq_bool_iff in E. rewrite Eyz. exact E.
    + exists z. split; [ | exact Eyz]. right. apply filter_In.
      split; [exact Hz | rewrite E; reflexivity].
Qed.

Lemma all_equal_iff (l : list Q) :
  all_equal l = true <-> forall x y, In x l -> In y l -> x == y.
Proof.
  unfold all_equal. rewrite forallb_forall. split.
  - intros H x y Hx Hy. specialize (H x Hx). rewrite forallb_forall in H.
    apply Qeq_bool_iff. apply H. exact Hy.
  - intros H x Hx. apply forallb_forall. intros y Hy.
    apply Qeq_bool_iff. apply H; assumption.
Qed.

(** [len(set(l)) > 1] says that not all values of [l] are equal. *)
Lemma distinct_all_equal (l : list Q) :
  (1 <? List.length (distinct l))%nat = negb (all_equal l).
Proof.
  destruct (all_equal l) eqn:E; simpl.
  - apply Nat.ltb_ge. rewrite all_equal_iff in E.
    destruct l as [| x l]; simpl; [lia | ].
    assert (F : filter (fun y => negb (Qeq_bool y x)) (distinct l) = []).
    { destruct (filter _ _) as [| y ys] eqn:Ef; [reflexivity | exfalso].
      assert (Hy : In y (filter (fun y => negb (Qeq_bool y x)) (distinct l)))
        by (rewrite Ef; left; reflexivity).
      apply filter_In in Hy. destruct Hy as [Hy Hne].
      apply In_distinct in Hy.
      assert (Eyx : y == x) by (apply E; simpl; auto).
      apply Qeq_bool_iff in Eyx. rewrite Eyx in Hne. discriminate. }
    rewrite F. simpl. lia.
  - apply Nat.ltb_lt.
    destruct l as [| x l]; [discriminate | ]. simpl.
    destruct (filter _ _) as [| y ys] eqn:Ef; [exfalso | simpl; lia].
    assert (Hall : forall y, In y l -> y == x).
    { intros y Hy. destruct (distinct_covers l y Hy) as (z & Hz & Eyz).
      destruct (Qeq_bool z x) eqn:Ez.
      - apply Qeq_bool_iff in Ez. rewrite Eyz. exact Ez.
      - exfalso.
        assert (Hz' : In z (filter (fun y => negb (Qeq_bool y x)) (distinct l)))
          by (apply filter_In; split; [exact Hz | rewrite Ez; reflexivity]).
        rewrite Ef in Hz'. exact Hz'. }
    assert (Ht : all_equal (x :: l) = true).
    { apply all_equal_iff. intros a b [<- | Ha] [<- | Hb].
      - reflexivity.
      - symmetry. apply Hall. exact Hb.
      - apply Hall. exact Ha.
      - rewrite (Hall a Ha), (Hall b Hb). reflexivity. }
    congruence.
Qed.

Lemma add_usage_std_spec (usages : list Q) (total : Q) :
  add_usage_std usages total == total + balance_part usages.
Proof.
  unfold add_usage_std, balance_part. rewrite distinct_all_equal.
  destruct ((1 <? List.length usages)%nat && negb (all_equal usages))%bool; ring.
Qed.

(** ** The fitness evaluator *)

Lemma calculate_total_cost_Ok (fl : position) (customers : list string)
  (demands : dict Q) (coords : dict coord) (capacity fixed cpk upl : Q)
  (cost : Q) (asg : dict (option nat)) :
  calculate_total_cost fl customers demands coords capacity fixed cpk upl
  = Ok (cost, asg) ->
  exists st,
    foldM (assign_customer fl coords capacity cpk upl) demands
          (Eval.mk (map (fun _ => 0) (seq 0 (List.length fl))) 0 []) = Ok st
    /\ asg = Eval.assignments st
    /\ cost = add_usage_std (Eval.facility_usage st)
                (add_fixed_costs fixed (Eval.facility_usage st) (Eval.total_cost st)).
Proof.
  unfold calculate_total_cost. intros H. inv_bind H as st Hst.
  injection H as <- <-. exists st. auto.
Qed.

Lemma usage_is_usage_of (fl : position) (demands : dict Q) (coords : dict coord)
  (capacity cpk upl : Q) (st : Eval.state) :
  eval_inv fl demands coords capacity cpk upl demands st ->
  Eval.facility_usage st = usage_of fl demands (Eval.assignments st).
Proof.
  intros (_ & Hlen & Hload & _). unfold usage_of.
  apply (nth_ext _ _ 0 0).
  - rewrite length_map, length_seq. exact Hlen.
  - intros f Hf. rewrite Hload.
    rewrite (nth_indep _ 0 (facility_load demands (Eval.assignments st) 0%nat))
      by (rewrite length_map, length_seq, <- Hlen; exact Hf).
    rewrite (map_nth (facility_load demands (Eval.assignments st))).
    rewrite seq_nth by (rewrite <- Hlen; exact Hf). reflexivity.
Qed.

Lemma total_cost_is_spec (fl : position) (customers : list string)
  (demands : dict Q) (coords : dict coord) (capacity fixed cpk upl : Q)
  (cost : Q) (asg : dict (option nat)) :
  NoDup (keys demands) ->
  calculate_total_cost fl customers demands coords capacity fixed cpk upl
  = Ok (cost, asg) ->
  keys asg = keys demands
  /\ cost == spec_total_cost fl demands coords fixed cpk upl asg.
Proof.
  intros Hnd H. apply calculate_total_cost_Ok in H.
  destruct H as (st & Hst & -> & ->).
  pose proof (eval_loop_inv _ _ _ _ _ _ _ Hnd Hst) as Hinv.
  pose proof (usage_is_usage_of _ _ _ _ _ _ _ Hinv) as Hus.
  destruct Hinv as (Hk & _ & _ & Hcost & _).
  split; [exact Hk | ].
  unfold spec_total_cost. rewrite <- Hus.
  rewrite add_usage_std_spec, add_fixed_costs_spec, Hcost. ring.
Qed.

(** C2.  The total cost returned by [calculate_total_cost] is the sum of:
    for each assigned customer, its distance to its assigned facility times
    [cost_per_km] times [ceil(demand / units_per_load)]; 1,000,000 for each
    unassigned customer; [fixed_cost] once for each facility of strictly
    positive accumulated usage; and 100 times the population standard
    deviation of the per-facility usages, the last term exactly when there
    is more than one facility and not all usages are equal.  Every customer
    of [demands] has one entry in the assignment. *)
Theorem C2_total_cost_decomposition (facility_locations : position)
  (customers : list string) (demands : dict Q) (customer_coords : dict coord)
  (facility_capacity fixed_cost cost_per_km units_per_load : Q)
  (cost : Q) (assignments : dict (option nat)) :
  NoDup (keys demands) ->
  calculate_total_cost facility_locations customers demands customer_coords
    facility_capacity fixed_cost cost_per_km units_per_load
  = Ok (cost, assignments) ->
  keys assignments = keys demands
  /\ cost == spec_total_cost facility_locations demands customer_coords
               fixed_cost cost_per_km units_per_load assignments.
Proof.
  apply total_cost_is_spec.
Qed.

(** C3.  For every assignment produced by [calculate_total_cost] and every
    facility index, the sum of the demands of the customers assigned to
    that facility is at most [facility_capacity].  Capacities are positive
    in the data model; the bound is proved for every non-negative capacity,
    and for any capacity on a facility that has at least one customer. *)
Theorem C3_usage_within_capacity (facility_locations : position)
  (customers : list string) (demands : dict Q) (customer_coords : dict coord)
  (facility_capacity fixed_cost cost_per_km units_per_load : Q)
  (cost : Q) (assignments : dict (option nat)) :
  NoDup (keys demands) ->
  calculate_total_cost facility_locations customers demands customer_coords
    facility_capacity fixed_cost cost_per_km units_per_load
  = Ok (cost, assignments) ->
  forall facility,
    0 <= facility_capacity \/ (exists c, In (c, Some facility) assignments) ->
    facility_load demands assignments facility <= facility_capacity.
Proof.
  intros Hnd H facility Hf. apply calculate_total_cost_Ok in H.
  destruct H as (st & Hst & -> & _).
  destruct (eval_loop_inv _ _ _ _ _ _ _ Hnd Hst) as (_ & _ & Hload & _ & Hcap & _).
  rewrite <- Hload. apply Hcap. exact Hf.
Qed.

Lemma penalty_part_unassigned (asg : dict (option nat)) (c : string) :
  In (c, None) asg -> 1000000 <= penalty_part asg.
Proof.
  intros Hin. unfold penalty_part. rewrite Qsum_const.
  assert (Hf : In (c, @None nat) (filter (fun e => negb (is_assigned e)) asg))
    by (apply filter_In; split; [exact Hin | reflexivity]).
  destruct (filter _ asg) as [| e l]; [contradiction | ].
  cbn [List.length]. rewrite Nat2Z.inj_succ. unfold Z.succ. rewrite inject_Z_plus.
  assert (0 <= inject_Z (Z.of_nat (List.length l))).
  { change 0 with (inject_Z 0). rewrite <- Zle_Qle. lia. }
  change (inject_Z 1) with 1. lra.
Qed.

(** C5, amended.  With non-negative demands, a customer whose demand
    exceeds [facility_capacity] is unassigned and incurs the penalty of
    1,000,000.  In the scenario of one facility of capacity 30 and two
    customers of demand 40, both customers are unassigned and the total
    cost is 2,000,000. *)
Theorem C5_oversized_demand_unassigned (facility_locations : position)
  (customers : list string) (demands : dict Q) (customer_coords : dict coord)
  (facility_capacity fixed_cost cost_per_km units_per_load : Q)
  (cost : Q) (assignments : dict (option nat)) :
  NoDup (keys demands) ->
  (forall c d, In (c, d) demands -> 0 <= d) ->
  calculate_total_cost facility_locations customers demands customer_coords
    facility_capacity fixed_cost cost_per_km units_per_load
  = Ok (cost, assignments) ->
  (forall c d, In (c, d) demands -> facility_capacity < d ->
               get assignments c = Some None
               /\ 1000000 <= penalty_part assignments)
  /\ (forall a b da db,
         List.length facility_locations = 1%nat ->
         facility_capacity == 30 ->
         demands = [(a, da); (b, db)] -> da == 40 -> db == 40 ->
         assignments = [(a, None); (b, None)] /\ cost == 2000000).
Proof.
  intros Hnd Hpos H.
  pose proof (total_cost_is_spec _ _ _ _ _ _ _ _ _ _ Hnd H) as [Hk Hcost].
  apply calculate_total_cost_Ok in H. destruct H as (st & Hst & -> & _).
  destruct (eval_loop_inv _ _ _ _ _ _ _ Hnd Hst) as (_ & _ & _ & _ & _ & Hun & _).
  destruct (Hun Hpos) as [_ Hnone].
  assert (Hgen : forall c d, In (c, d) demands -> facility_capacity < d ->
                             In (c, None) (Eval.assignments st))
    by exact Hnone.
  split.
  - intros c d Hin Hbig. specialize (Hgen c d Hin Hbig). split.
    + apply get_In; [rewrite Hk; exact Hnd | exact Hgen].
    + eapply penalty_part_unassigned. exact Hgen.
  - intros a b da db Hlen Hcap -> Hda Hdb.
    assert (Ha : In (a, None) (Eval.assignments st))
      by (apply (Hgen a da); [left; reflexivity | lra]).
    assert (Hb : In (b, None) (Eval.assignments st))
      by (apply (Hgen b db); [right; left; reflexivity | lra]).
    assert (Hab : a <> b).
    { simpl in Hnd. inversion Hnd as [| ? ? Hn _]. simpl in Hn. intros E.
      apply Hn. left. symmetry. exact E. }
    assert (Easg : Eval.assignments st = [(a, None); (b, None)]).
    { destruct (Eval.assignments st) as [| [a' oa] [| [b' ob] [| ? ?]]];
        simpl in Hk; try discriminate.
      injection Hk as -> ->.
      destruct Ha as [Ea | [Ea | []]]; [ | injection Ea as Ea _; congruence].
      destruct Hb as [Eb | [Eb | []]]; [injection Eb as Eb _; congruence | ].
      injection Ea as ->. injection Eb as ->. reflexivity. }
    split; [exact Easg | ].
    rewrite Hcost, Easg.
    destruct facility_locations as [| fac [| ? ?]]; try discriminate.
    unfold spec_total_cost, transport_part, penalty_part, fixed_part, balance_part,
      usage_of, facility_load, Qsum. simpl. ring.
Qed.

Lemma assign_customer_total (fl : position) (coords : dict coord)
  (capacity cpk upl : Q) (st : Eval.state) (c : string) (d : Q) :
  In c (keys coords) -> ~ upl == 0 -> float_overflows (d / upl) = false ->
  exists st', assign_customer fl coords capacity cpk upl st (c, d) = Ok st'.
Proof.
  intros Hc Hu Ho. unfold assign_customer.
  destruct (get coords c) as [[lat lon] | ] eqn:E.
  - destruct (first_fit _ _ _ _); [ | eauto].
    destruct (Qeq_bool upl 0) eqn:Eu; [ | rewrite Ho; eauto].
    apply Qeq_bool_iff in Eu. contradiction.
  - apply get_None in E. contradiction.
Qed.

(** The evaluator returns when every customer has coordinates,
    [units_per_load] is not zero and no load count overflows. *)
Lemma calculate_total_cost_total (fl : position) (customers : list string)
  (demands : dict Q) (coords : dict coord) (capacity fixed cpk upl : Q) :
  (forall c, In c (keys demands) -> In c (keys coords)) -> ~ upl == 0 ->
  (forall c d, In (c, d) demands -> float_overflows (d / upl) = false) ->
  exists cost asg,
    calculate_total_cost fl customers demands coords capacity fixed cpk upl
    = Ok (cost, asg).
Proof.
  intros Hc Hu Ho. unfold calculate_total_cost.
  destruct (foldM_total (assign_customer fl coords capacity cpk upl)
                        (fun _ => True) demands) with
    (s := Eval.mk (map (fun _ => 0) (seq 0 (List.length fl))) 0 [])
    as (st & E & _).
  - intros s [c d] Hin _.
    destruct (assign_customer_total fl coords capacity cpk upl s c d) as (s' & E');
      [ | exact Hu | exact (Ho c d Hin) | eauto].
    apply Hc. apply (in_map fst) in Hin. exact Hin.
  - exact I.
  - rewrite E. simpl. eauto.
Qed.

(** ** [np.argmin], bounds and clipping *)

Lemma argmin_from_spec (L : list Q) :
  forall l pre best_index best,
    L = pre ++ l ->
    (best_index < List.length pre)%nat ->
    nth best_index L 0 = best ->
    (forall x, In x pre -> best <= x) ->
    (argmin_from best_index best (List.length pre) l < List.length L)%nat
    /\ forall x, In x L -> nth (argmin_from best_index best (List.length pre) l) L 0 <= x.
Proof.
  induction l as [| x l IH]; intros pre bi b EL Hbi Hb Hmin; simpl.
  - rewrite app_nil_r in EL. subst L. split; [exact Hbi | ].
    intros x Hx. rewrite Hb. apply Hmin. exact Hx.
  - assert (EL' : L = (pre ++ [x]) ++ l) by (rewrite <- app_assoc; exact EL).
    assert (Hlen : List.length (pre ++ [x]) = S (List.length pre))
      by (rewrite length_app; simpl; lia).
    destruct (Qltb x b) eqn:E.
    + apply Qltb_lt in E. rewrite <- Hlen. apply IH.
      * exact EL'.
      * rewrite Hlen. lia.
      * rewrite EL. apply nth_middle.
      * intros y Hy. apply in_app_or in Hy. destruct Hy as [Hy | [<- | []]].
        -- specialize (Hmin y Hy). lra.
        -- lra.
    + apply Qltb_ge in E. rewrite <- Hlen. apply IH.
      * exact EL'.
      * rewrite Hlen. lia.
      * exact Hb.
      * intros y Hy. apply in_app_or in Hy. destruct Hy as [Hy | [<- | []]].
        -- apply Hmin. exact Hy.
        -- exact E.
Qed.

Lemma np_argmin_spec (l : list Q) (g : nat) :
  np_argmin l = Ok g ->
  (g < List.length l)%nat /\ forall x, In x l -> nth g l 0 <= x.
Proof.
  destruct l as [| x l]; simpl; [discriminate | ].
  intros [= <-].
  apply (argmin_from_spec (x :: l) l [x] 0%nat x); simpl; auto.
  intros y [<- | []]. lra.
Qed.


Lemma fold_left_Qmin_le (l : list Q) (a : Q) :
  fold_left Qmin l a <= a /\ forall x, In x l -> fold_left Qmin l a <= x.
Proof.
  revert a. induction l as [| y l IH]; intros a; simpl.
  - split; [lra | tauto].
  - destruct (IH (Qmin a y)) as [H1 H2].
    pose proof (Q.le_min_l a y). pose proof (Q.le_min_r a y).
    split; [lra | ].
    intros x [<- | Hx]; [lra | apply H2; exact Hx].
Qed.

Lemma fold_left_Qmax_ge (l : list Q) (a : Q) :
  a <= fold_left Qmax l a /\ forall x, In x l -> x <= fold_left Qmax l a.
Proof.
  revert a. induction l as [| y l IH]; intros a; simpl.
  - split; [lra | tauto].
  - destruct (IH (Qmax a y)) as [H1 H2].
    pose proof (Q.le_max_l a y). pose proof (Q.le_max_r a y).
    split; [lra | ].
    intros x [<- | Hx]; [lra | apply H2; exact Hx].
Qed.

(** [Series.min()] is below and [Series.max()] above every element. *)
Lemma series_min_le (l : list Q) (m x : Q) :
  series_min l = Some m -> In x l -> m <= x.
Proof.
  destruct l as [| a l]; simpl; [discriminate | ].
  destruct (fold_left_Qmin_le l a) as [H1 H2].
  intros [= <-] [<- | Hx]; [exact H1 | apply H2; exact Hx].
Qed.

Lemma series_max_ge (l : list Q) (m x : Q) :
  series_max l = Some m -> In x l -> x <= m.
Proof.
  destruct l as [| a l]; simpl; [discriminate | ].
  destruct (fold_left_Qmax_ge l a) as [H1 H2].
  intros [= <-] [<- | Hx]; [exact H1 | apply H2; exact Hx].
Qed.

Lemma series_min_max (l : list Q) (lo hi : Q) :
  series_min l = Some lo -> series_max l = Some hi -> lo <= hi.
Proof.
  destruct l as [| a l]; [discriminate | ].
  intros Hlo Hhi.
  pose proof (series_min_le _ _ a Hlo (or_introl eq_refl)).
  pose proof (series_max_ge _ _ a Hhi (or_introl eq_refl)).
  lra.
Qed.





Lemma clip1_in_range (x lo hi : Q) : lo <= hi -> lo <= clip1 x lo hi <= hi.
Proof.
  intros H. unfold clip1.
  pose proof (Q.le_min_l hi (Qmax x lo)).
  pose proof (Q.le_max_r x lo).
  destruct (Q.min_spec hi (Qmax x lo)) as [[_ E] | [_ E]]; rewrite E; lra.
Qed.

Lemma np_clip_in_box (p : position) (low high : coord) :
  fst low <= fst high -> snd low <= snd high ->
  Forall (in_box low high) (np_clip p low high).
Proof.
  intros H1 H2. unfold np_clip. apply Forall_map. apply Forall_forall.
  intros c _. unfold in_box; simpl.
  split; apply clip1_in_range; assumption.
Qed.

(** ** Inertia decay *)

Lemma decay_inertia_cases (w : Q) :
  (4 # 10 < w * (99 # 100) /\ decay_inertia w = w * (99 # 100))
  \/ (w * (99 # 100) <= 4 # 10 /\ decay_inertia w = 4 # 10).
Proof.
  unfold decay_inertia, py_max.
  destruct (Qltb (4 # 10) (w * (99 # 100))) eqn:E.
  - left. apply Qltb_lt in E. auto.
  - right. apply Qltb_ge in E. auto.
Qed.

Lemma decay_inertia_floor (w : Q) : 4 # 10 <= decay_inertia w.
Proof.
  destruct (decay_inertia_cases w) as [[H ->] | [H ->]]; lra.
Qed.

Lemma decay_inertia_le (w : Q) : 4 # 10 <= w -> decay_inertia w <= w.
Proof.
  intros Hw. destruct (decay_inertia_cases w) as [[H ->] | [H ->]]; lra.
Qed.

Lemma iter_decay_floor (w : Q) (k : nat) :
  (1 <= k)%nat \/ 4 # 10 <= w -> 4 # 10 <= Nat.iter k decay_inertia w.
Proof.
  destruct k as [| k]; simpl.
  - intros [H | H]; [lia | exact H].
  - intros _. apply decay_inertia_floor.
Qed.

Lemma Qpower_succ (r : Q) (k : nat) :
  ~ r == 0 -> r ^ Z.of_nat (S k) == r ^ Z.of_nat k * r.
Proof.
  intros Hr. rewrite Nat2Z.inj_succ. unfold Z.succ.
  rewrite Qpower_plus by exact Hr. simpl. reflexivity.
Qed.

(** The closed form of the inertia weight after [k] decay steps. *)
Lemma iter_decay_closed (w : Q) (k : nat) :
  (1 <= k)%nat \/ 4 # 10 <= w ->
  Nat.iter k decay_inertia w == Qmax (4 # 10) (w * (99 # 100) ^ Z.of_nat k).
Proof.
  induction k as [| k IH]; intros Hk.
  - destruct Hk as [Hk | Hw]; [lia | ]. simpl.
    destruct (Q.max_spec (4 # 10) (w * 1)) as [[H ->] | [H ->]]; lra.
  - destruct k as [| k].
    + simpl.
      destruct (decay_inertia_cases w) as [[H ->] | [H ->]];
        destruct (Q.max_spec (4 # 10) (w * (99 # 100))) as [[H' ->] | [H' ->]];
        lra.
    + assert (IH' : Nat.iter (S k) decay_inertia w
                    == Qmax (4 # 10) (w * (99 # 100) ^ Z.of_nat (S k)))
        by (apply IH; left; lia).
      assert (Er : (99 # 100) ^ Z.of_nat (S (S k))
                   == (99 # 100) ^ Z.of_nat (S k) * (99 # 100))
        by (apply Qpower_succ; intros E; discriminate E).
      rewrite Er. change (Nat.iter (S (S k)) decay_inertia w)
        with (decay_inertia (Nat.iter (S k) decay_inertia w)).
      generalize dependent (Nat.iter (S k) decay_inertia w).
      generalize ((99 # 100) ^ Z.of_nat (S k)).
      intros p x IH'.
      destruct (decay_inertia_cases x) as [[H ->] | [H ->]];
        destruct (Q.max_spec (4 # 10) (w * p)) as [[H1 E1] | [H1 E1]];
        destruct (Q.max_spec (4 # 10) (w * (p * (99 # 100)))) as [[H2 ->] | [H2 ->]];
        rewrite E1 in IH'; lra.
Qed.

(** ** Sampling inside the box *)

Lemma affine_in_range (lo hi u : Q) :
  lo <= hi -> 0 <= u <= 1 -> lo <= lo + (hi - lo) * u <= hi.
Proof.
  intros H [H0 H1].
  assert (0 <= (hi - lo) * u) by (apply Qmult_le_0_compat; lra).
  assert (0 <= (hi - lo) * (1 - u)) by (apply Qmult_le_0_compat; lra).
  assert ((hi - lo) * (1 - u) == (hi - lo) - (hi - lo) * u) by ring.
  lra.
Qed.

Lemma random_uniform_in_box (draws : nat) (low high : coord) (np nf : nat) :
  (forall n, 0 <= np_random n <= 1) ->
  fst low <= fst high -> snd low <= snd high ->
  rows_in_box low high (random_uniform draws low high np nf).
Proof.
  intros Hu H1 H2. unfold rows_in_box, random_uniform.
  apply Forall_map, Forall_forall. intros i _.
  apply Forall_map, Forall_forall. intros u Hin.
  unfold random_rand in Hin. apply in_map_iff in Hin.
  destruct Hin as (j & <- & _).
  unfold in_box; simpl. split; apply affine_in_range; auto.
Qed.

Lemma random_uniform_length (draws : nat) (low high : coord) (np nf : nat) :
  List.length (random_uniform draws low high np nf) = np.
Proof.
  unfold random_uniform. rewrite length_map, length_seq. reflexivity.
Qed.

Lemma Forall_list_set {A : Type} (P : A -> Prop) (l : list A) (i : nat) (x : A) :
  Forall P l -> P x -> Forall P (list_set l i x).
Proof.
  intros Hl Hx. apply Forall_forall. intros y Hy.
  apply In_list_set in Hy. destruct Hy as [-> | Hy]; [exact Hx | ].
  rewrite Forall_forall in Hl. apply Hl. exact Hy.
Qed.

Lemma rows_in_box_nth (low high : coord) (rows : list position) (i : nat) :
  rows_in_box low high rows -> Forall (in_box low high) (nth i rows []).
Proof.
  intros H. destruct (nth_in_or_default i rows []) as [Hin | ->].
  - unfold rows_in_box in H. rewrite Forall_forall in H. apply H. exact Hin.
  - constructor.
Qed.

Lemma deref_in_box (low high : coord) (rows : list position) (r : array_ref) :
  rows_in_box low high rows -> ref_in_box low high r ->
  Forall (in_box low high) (deref rows r).
Proof.
  intros Hrows Hr. destruct r as [i | p]; simpl.
  - apply rows_in_box_nth. exact Hrows.
  - exact Hr.
Qed.

Lemma bounds_Ok (df : DataFrame) (low high : coord) :
  bounds df = Ok (low, high) ->
  series_min (map Row.Latitude df) = Some (fst low)
  /\ series_max (map Row.Latitude df) = Some (fst high)
  /\ series_min (map Row.Longitude df) = Some (snd low)
  /\ series_max (map Row.Longitude df) = Some (snd high).
Proof.
  unfold bounds.
  destruct (series_min (map Row.Latitude df)), (series_max (map Row.Latitude df)),
    (series_min (map Row.Longitude df)), (series_max (map Row.Longitude df));
    try discriminate.
  destruct (float_overflows _ || float_overflows _); [discriminate | ].
  intros [= <- <-]. simpl. auto.
Qed.



(** ** The dictionaries built from the customer table *)

Lemma NoDup_keys_set {V : Type} (d : dict V) (k : string) (v : V) :
  NoDup (keys d) -> NoDup (keys (set d k v)).
Proof.
  induction d as [| [k' v'] d IH]; simpl; intros H.
  - constructor; [intros [] | constructor].
  - inversion H as [| ? ? Hn Hd]; subst.
    destruct (String.eqb_spec k k') as [-> | Hne]; simpl.
    + constructor; assumption.
    + constructor; [ | apply IH; exact Hd].
      intros Hin. apply (keys_set d k v k') in Hin.
      destruct Hin as [E | Hin]; [congruence | contradiction].
Qed.

Lemma NoDup_keys_of_zip {V : Type} (ks : list string) (vs : list V) :
  NoDup (keys (of_zip ks vs)).
Proof.
  unfold of_zip.
  assert (G : forall (l : list (string * V)) d,
             NoDup (keys d) ->
             NoDup (keys (fold_left (fun d kv => set d (fst kv) (snd kv)) l d))).
  { induction l as [| kv l IH]; intros d Hd; simpl; [exact Hd | ].
    apply IH. apply NoDup_keys_set. exact Hd. }
  apply G. constructor.
Qed.


Lemma In_set {V : Type} (d : dict V) (k k' : string) (v v' : V) :
  In (k', v') (set d k v) -> (k' = k /\ v' = v) \/ In (k', v') d.
Proof.
  induction d as [| [k0 v0] d IH]; simpl.
  - intros [[= <- <-] | []]. left. auto.
  - destruct (String.eqb_spec k k0) as [-> | Hne]; simpl.
    + intros [[= <- <-] | H]; [left; auto | right; right; exact H].
    + intros [E | H]; [right; left; exact E | ].
      destruct (IH H) as [Hl | Hr]; [left; exact Hl | right; right; exact Hr].
Qed.



(** ** The swarm optimizer *)

Section RunFacts.

Variable customers_df : DataFrame.
Variable n_facilities : nat.
Variables facility_capacity fixed_cost cost_per_km units_per_load : Q.
Variables n_particles n_iterations : nat.
Variable max_run_time_seconds : Q.
Variables inertia_weight cognitive_coefficient social_coefficient : Q.

Local Abbreviation score :=
  (score_of customers_df facility_capacity fixed_cost cost_per_km units_per_load).
Local Abbreviation update :=
  (update_particle customers_df n_facilities facility_capacity fixed_cost
                   cost_per_km units_per_load cognitive_coefficient
                   social_coefficient).
Local Abbreviation sweep_particles :=
  (sweep customers_df n_facilities facility_capacity fixed_cost cost_per_km
         units_per_load n_particles cognitive_coefficient social_coefficient).
Local Abbreviation body :=
  (iteration_body customers_df n_facilities facility_capacity fixed_cost
                  cost_per_km units_per_load n_particles cognitive_coefficient
                  social_coefficient).
Local Abbreviation run :=
  (run_iterations customers_df n_facilities facility_capacity fixed_cost
                  cost_per_km units_per_load n_particles max_run_time_seconds
                  cognitive_coefficient social_coefficient).
Local Abbreviation init :=
  (initial_state customers_df n_facilities facility_capacity fixed_cost
                 cost_per_km units_per_load n_particles inertia_weight).
Local Abbreviation optimize :=
  (optimize_facility_locations_pso customers_df n_facilities facility_capacity
     fixed_cost cost_per_km units_per_load n_particles n_iterations
     max_run_time_seconds inertia_weight cognitive_coefficient
     social_coefficient).
Local Abbreviation evaluate p :=
  (calculate_total_cost p (customers customers_df) (demands customers_df)
     (customer_coords customers_df) facility_capacity fixed_cost cost_per_km
     units_per_load).

Lemma score_of_Ok (p : position) (s : Q) :
  score p = Ok s <-> exists asg, evaluate p = Ok (s, asg).
Proof.
  unfold score_of. split.
  - intros H. inv_bind H as r Hr. destruct r as [s' asg]. injection H as <-. eauto.
  - intros (asg & ->). reflexivity.
Qed.

(** What the update of particle [i] does to the personal bests. *)
Lemma update_particle_Ok (low high : coord) (gbp : array_ref) (w : Q)
  (sw sw' : Swarm.state) (i : nat) :
  update low high gbp w sw i = Ok sw' ->
  exists p v s,
    score (np_clip p low high) = Ok s
    /\ Swarm.particles sw' = list_set (Swarm.particles sw) i (np_clip p low high)
    /\ Swarm.velocities sw' = list_set (Swarm.velocities sw) i v
    /\ Swarm.draws sw' = (Swarm.draws sw + 4 * n_facilities)%nat
    /\ ((s < nth i (Swarm.personal_best_scores sw) 0
         /\ Swarm.personal_best_positions sw'
            = list_set (Swarm.personal_best_positions sw) i (np_clip p low high)
         /\ Swarm.personal_best_scores sw'
            = list_set (Swarm.personal_best_scores sw) i s)
        \/ (nth i (Swarm.personal_best_scores sw) 0 <= s
            /\ Swarm.personal_best_positions sw' = Swarm.personal_best_positions sw
            /\ Swarm.personal_best_scores sw' = Swarm.personal_best_scores sw)).
Proof.
  unfold update_particle. intros H. inv_bind H as s Hs.
  eexists _, _, s. split; [exact Hs | ].
  destruct (Qltb s (nth i (Swarm.personal_best_scores sw) 0)) eqn:E;
    injection H as <-; simpl; repeat split.
  - left. apply Qltb_lt in E. auto.
  - right. apply Qltb_ge in E. auto.
Qed.

(** A personal best score is only replaced by a strictly lower one. *)
Lemma update_particle_scores_le (low high : coord) (gbp : array_ref) (w : Q)
  (sw sw' : Swarm.state) (i j : nat) :
  update low high gbp w sw i = Ok sw' ->
  nth j (Swarm.personal_best_scores sw') 0 <= nth j (Swarm.personal_best_scores sw) 0.
Proof.
  intros H. apply update_particle_Ok in H.
  destruct H as (p & v & s & _ & _ & _ & _ & [(Hlt & _ & ->) | (_ & _ & ->)]);
    [ | lra].
  destruct (Nat.lt_ge_cases i (List.length (Swarm.personal_best_scores sw)))
    as [Hi | Hi].
  - rewrite nth_list_set by exact Hi.
    destruct (Nat.eqb_spec j i) as [-> | _]; lra.
  - rewrite list_set_out_of_range by exact Hi. lra.
Qed.

Lemma sweep_invariant (P : Swarm.state -> Prop) (low high : coord)
  (gbp : array_ref) (w : Q) (sw sw' : Swarm.state) :
  (forall i s s', P s -> update low high gbp w s i = Ok s' -> P s') ->
  P sw -> sweep_particles low high gbp w sw = Ok sw' -> P sw'.
Proof.
  intros Hstep H0. unfold sweep.
  apply (foldM_invariant _ (fun _ => P)); [exact H0 | ].
  intros pre i rest s s' _ Hs Hu. eapply Hstep; eassumption.
Qed.

Lemma iteration_body_Ok (start : Q) (low high : coord) (iteration : nat)
  (st st' : Loop.state) :
  body start low high iteration st = Ok st' ->
  exists sw best_index,
    sweep_particles low high (Loop.global_best_position st)
                    (Loop.current_inertia_weight st) (Loop.swarm st) = Ok sw
    /\ np_argmin (Swarm.personal_best_scores sw) = Ok best_index
    /\ Loop.swarm st' = sw
    /\ Loop.current_inertia_weight st' = decay_inertia (Loop.current_inertia_weight st)
    /\ Loop.completed_iterations st' = (iteration + 1)%nat
    /\ Loop.history st'
       = Loop.history st
         ++ [Hist.mk iteration (Loop.global_best_score st')
                     (time_time (Loop.clock_reads st) - start)]
    /\ ((nth best_index (Swarm.personal_best_scores sw) 0 < Loop.global_best_score st
         /\ Loop.global_best_score st'
            = nth best_index (Swarm.personal_best_scores sw) 0
         /\ Loop.global_best_position st'
            = Owned (nth best_index (Swarm.personal_best_positions sw) []))
        \/ (Loop.global_best_score st
            <= nth best_index (Swarm.personal_best_scores sw) 0
            /\ Loop.global_best_score st' = Loop.global_best_score st
            /\ Loop.global_best_position st' = Loop.global_best_position st)).
Proof.
  unfold iteration_body. intros H. inv_bind H as sw Hsw. inv_bind H as b Hb.
  exists sw, b. injection H as <-. simpl. repeat split; try assumption.
  destruct (Qltb _ _) eqn:E.
  - left. apply Qltb_lt in E. auto.
  - right. apply Qltb_ge in E. auto.
Qed.

Lemma run_iterations_invariant (P : Loop.state -> Prop) (start : Q)
  (low high : coord) :
  (forall st, P st -> P (tick st)) ->
  (forall iteration st st',
      P st -> body start low high iteration st = Ok st' -> P st') ->
  forall iterations st st',
    P st -> run start low high iterations st = Ok st' -> P st'.
Proof.
  intros Htick Hbody. induction iterations as [| it rest IH]; intros st st' Hp H;
    simpl in H.
  - injection H as <-. exact Hp.
  - destruct (Qltb _ _).
    + injection H as <-. apply Htick. exact Hp.
    + inv_bind H as st1 H1. apply (IH st1); [ | exact H].
      eapply Hbody; [ | exact H1]. apply Htick. exact Hp.
Qed.

Lemma initial_state_Ok (low high : coord) (st0 : Loop.state) :
  init low high = Ok st0 ->
  exists scores g,
    mapM score (random_uniform 0 low high n_particles n_facilities) = Ok scores
    /\ np_argmin scores = Ok g
    /\ Swarm.personal_best_positions (Loop.swarm st0)
       = random_uniform 0 low high n_particles n_facilities
    /\ Swarm.personal_best_scores (Loop.swarm st0) = scores
    /\ Loop.global_best_position st0 = RowView g
    /\ Loop.global_best_score st0 = nth g scores 0
    /\ Loop.current_inertia_weight st0 = inertia_weight
    /\ Loop.history st0 = []
    /\ Loop.completed_iterations st0 = 0%nat
    /\ Loop.clock_reads st0 = 1%nat.
Proof.
  unfold initial_state. intros H. inv_bind H as scores Hs. inv_bind H as g Hg.
  injection H as <-. exists scores, g. simpl. repeat split; assumption.
Qed.

Lemma optimize_Ok (r : Result.t) :
  optimize = Ok r ->
  exists low high st0 st total asg recs,
    bounds customers_df = Ok (low, high)
    /\ init low high = Ok st0
    /\ run (time_time 0) low high (seq 0 n_iterations) st0 = Ok st
    /\ evaluate (deref (Swarm.personal_best_positions (Loop.swarm st))
                       (Loop.global_best_position st)) = Ok (total, asg)
    /\ assignment_records customers_df asg = Ok recs
    /\ r = Result.mk "Optimal" total
             (facility_records
                (deref (Swarm.personal_best_positions (Loop.swarm st))
                       (Loop.global_best_position st)))
             recs (Loop.history st) (Loop.completed_iterations st)
             (time_time (Loop.clock_reads st) - time_time 0).
Proof.
  unfold optimize_facility_locations_pso. intros H.
  inv_bind H as b Hb. destruct b as [low high].
  inv_bind H as st0 H0. inv_bind H as st Hst.
  inv_bind H as ev Hev. destruct ev as [total asg].
  inv_bind H as recs Hrecs. injection H as <-.
  exists low, high, st0, st, total, asg, recs. repeat split; assumption.
Qed.

(** *** Iteration counts, history and inertia *)

Lemma run_iterations_indexed (P : nat -> Loop.state -> Prop) (start : Q)
  (low high : coord) :
  (forall a st, P a st -> P a (tick st)) ->
  (forall a st st', P a st -> body start low high a st = Ok st' -> P (S a) st') ->
  forall n a st st',
    P a st -> run start low high (seq a n) st = Ok st' ->
    exists k, (a <= k <= a + n)%nat /\ P k st'.
Proof.
  intros Htick Hbody. induction n as [| n IH]; intros a st st' Hp H; simpl in H.
  - injection H as <-. exists a. split; [lia | exact Hp].
  - destruct (Qltb _ _).
    + injection H as <-. exists a. split; [lia | apply Htick; exact Hp].
    + inv_bind H as st1 H1.
      destruct (IH (S a) st1 st') as (k & Hk & Pk); [ | exact H | ].
      * eapply Hbody; [ | exact H1]. apply Htick. exact Hp.
      * exists k. split; [lia | exact Pk].
Qed.

Lemma count_inv_body (w0 start : Q) (low high : coord) (a : nat)
  (st st' : Loop.state) :
  count_inv w0 a st -> body start low high a st = Ok st' -> count_inv w0 (S a) st'.
Proof.
  intros (Hc & Hl & Hit & Hw) H. apply iteration_body_Ok in H.
  destruct H as (sw & b & _ & _ & _ & Ew & Ec & Eh & _).
  unfold count_inv. rewrite Ec, Eh, Ew, Hw. repeat split.
  - lia.
  - rewrite length_app. simpl. lia.
  - intros k e Hk. destruct (Nat.lt_ge_cases k (List.length (Loop.history st))) as [Hlt | Hge].
    + rewrite nth_error_app1 in Hk by exact Hlt. apply Hit. exact Hk.
    + rewrite nth_error_app2 in Hk by exact Hge.
      destruct (k - List.length (Loop.history st))%nat as [| j] eqn:Ej; simpl in Hk.
      * injection Hk as <-. simpl. lia.
      * destruct j; discriminate.
Qed.

Lemma run_iterations_counts (start : Q) (low high : coord) (st0 st : Loop.state) :
  init low high = Ok st0 ->
  run start low high (seq 0 n_iterations) st0 = Ok st ->
  (Loop.completed_iterations st <= n_iterations)%nat
  /\ count_inv inertia_weight (Loop.completed_iterations st) st.
Proof.
  intros H0 H. apply initial_state_Ok in H0.
  destruct H0 as (scores & g & _ & _ & _ & _ & _ & _ & Ew & Eh & Ec & _).
  destruct (run_iterations_indexed (count_inv inertia_weight) start low high)
    with (n := n_iterations) (a := 0%nat) (st := st0) (st' := st)
    as (k & Hk & Pk).
  - intros a s Hs. exact Hs.
  - intros a s s'. apply count_inv_body.
  - unfold count_inv. rewrite Ec, Eh, Ew. repeat split.
    intros k e Hk. destruct k; discriminate.
  - exact H.
  - pose proof Pk as (Ek & _). rewrite Ek. split; [lia | exact Pk].
Qed.

(** *** The recorded best scores *)

Lemma history_desc_body (start : Q) (low high : coord) (iteration : nat)
  (st st' : Loop.state) :
  history_desc st -> body start low high iteration st = Ok st' -> history_desc st'.
Proof.
  intros [Hge Hdesc] H. apply iteration_body_Ok in H.
  destruct H as (sw & b & _ & _ & _ & _ & _ & Eh & Hg).
  assert (Hle : Loop.global_best_score st' <= Loop.global_best_score st).
  { destruct Hg as [(Hlt & -> & _) | (_ & -> & _)]; lra. }
  unfold history_desc. rewrite Eh. split.
  - intros e He. apply in_app_or in He. destruct He as [He | [<- | []]].
    + specialize (Hge e He). lra.
    + simpl. lra.
  - intros k e1 e2 H1 H2.
    destruct (Nat.lt_ge_cases (S k) (List.length (Loop.history st))) as [Hlt | Hge'].
    + rewrite nth_error_app1 in H1 by lia. rewrite nth_error_app1 in H2 by lia.
      eapply Hdesc; eassumption.
    + rewrite nth_error_app2 in H2 by exact Hge'.
      destruct (S k - List.length (Loop.history st))%nat as [| j] eqn:Ej; simpl in H2;
        [ | destruct j; discriminate].
      injection H2 as <-. simpl.
      rewrite nth_error_app1 in H1 by lia.
      apply nth_error_In in H1. specialize (Hge e1 H1). lra.
Qed.

Lemma run_history_desc (start : Q) (low high : coord) (st0 st : Loop.state) :
  init low high = Ok st0 ->
  run start low high (seq 0 n_iterations) st0 = Ok st ->
  history_desc st.
Proof.
  intros H0 H. apply initial_state_Ok in H0.
  destruct H0 as (scores & g & _ & _ & _ & _ & _ & _ & _ & Eh & _).
  refine (run_iterations_invariant history_desc start low high _ _ _ st0 st _ H).
  - intros s Hs. exact Hs.
  - intros it s s'. apply history_desc_body.
  - unfold history_desc. rewrite Eh. split.
    + intros e [].
    + intros k e1 e2 Hk. destruct k; discriminate.
Qed.

(** C1.  In the history returned by [optimize_facility_locations_pso], the
    entry at position [k] is that of iteration [k], and the best score
    recorded for iteration [k + 1] is at most the one recorded for
    iteration [k]. *)
Theorem C1_best_score_non_increasing (r : Result.t) (k : nat) (e1 e2 : Hist.entry) :
  optimize = Ok r ->
  nth_error (Result.history r) k = Some e1 ->
  nth_error (Result.history r) (S k) = Some e2 ->
  Hist.iteration e1 = k /\ Hist.iteration e2 = S k
  /\ Hist.best_score e2 <= Hist.best_score e1.
Proof.
  intros H H1 H2. apply optimize_Ok in H.
  destruct H as (low & high & st0 & st & total & asg & recs & _ & H0 & Hrun & _ & _ & ->).
  simpl in H1, H2.
  destruct (run_iterations_counts _ _ _ _ _ H0 Hrun) as (_ & _ & _ & Hit & _).
  destruct (run_history_desc _ _ _ _ _ H0 Hrun) as [_ Hdesc].
  repeat split.
  - apply Hit. exact H1.
  - apply Hit. exact H2.
  - eapply Hdesc; eassumption.
Qed.

(** C9, amended.  After [k] completed iterations the working inertia
    weight is the [k]-fold image of [inertia_weight] under
    [w |-> max(0.4, w * 0.99)].  From the first completed iteration on
    (and from the start when [inertia_weight >= 0.4]) it equals
    [max(0.4, inertia_weight * 0.99^k)] and is at least 0.4; when
    [inertia_weight >= 0.4] a further decay step does not increase it. *)
Theorem C9_inertia_decay (start : Q) (low high : coord) (st0 st : Loop.state) :
  init low high = Ok st0 ->
  run start low high (seq 0 n_iterations) st0 = Ok st ->
  Loop.current_inertia_weight st
  = Nat.iter (Loop.completed_iterations st) decay_inertia inertia_weight
  /\ ((1 <= Loop.completed_iterations st)%nat \/ 4 # 10 <= inertia_weight ->
      Loop.current_inertia_weight st
      == Qmax (4 # 10)
              (inertia_weight * (99 # 100) ^ Z.of_nat (Loop.completed_iterations st))
      /\ 4 # 10 <= Loop.current_inertia_weight st)
  /\ (4 # 10 <= inertia_weight ->
      decay_inertia (Loop.current_inertia_weight st) <= Loop.current_inertia_weight st).
Proof.
  intros H0 H.
  destruct (run_iterations_counts _ _ _ _ _ H0 H) as (_ & _ & _ & _ & Ew).
  rewrite Ew. split; [reflexivity | split].
  - intros Hk. split; [apply iter_decay_closed | apply iter_decay_floor]; exact Hk.
  - intros Hw. apply decay_inertia_le. apply iter_decay_floor. right. exact Hw.
Qed.

(** *** Runs without a completed iteration *)

Lemma run_no_iteration (low high : coord) (st0 st : Loop.state) :
  init low high = Ok st0 ->
  n_iterations = 0%nat \/ max_run_time_seconds < time_time 1 - time_time 0 ->
  run (time_time 0) low high (seq 0 n_iterations) st0 = Ok st ->
  st = st0 \/ st = tick st0.
Proof.
  intros H0 Hc H. apply initial_state_Ok in H0.
  destruct H0 as (scores & g & _ & _ & _ & _ & _ & _ & _ & _ & _ & Eclk).
  destruct n_iterations as [| n]; simpl in H.
  - injection H as <-. left. reflexivity.
  - destruct Hc as [Hn | Ht]; [discriminate | ].
    rewrite Eclk in H. apply Qltb_lt in Ht. rewrite Ht in H.
    injection H as <-. right. reflexivity.
Qed.

(** C8.  The number of completed iterations never exceeds [n_iterations].
    When [n_iterations = 0], or when the time budget is exceeded at the
    first check, no iteration completes, the history is empty, and the
    solution is the best initial particle: the total cost is the least of
    the initial scores and the facility locations are the coordinates of
    the initial particle of the index [np.argmin] returns. *)
Theorem C8_no_completed_iteration (r : Result.t) :
  optimize = Ok r ->
  (Result.completed_iterations r <= n_iterations)%nat
  /\ (n_iterations = 0%nat \/ max_run_time_seconds < time_time 1 - time_time 0 ->
      Result.completed_iterations r = 0%nat
      /\ Result.history r = []
      /\ exists low high scores g,
          bounds customers_df = Ok (low, high)
          /\ mapM score (random_uniform 0 low high n_particles n_facilities)
             = Ok scores
          /\ np_argmin scores = Ok g
          /\ (g < n_particles)%nat
          /\ Result.total_cost r = nth g scores 0
          /\ (forall s, In s scores -> Result.total_cost r <= s)
          /\ Result.facility_locations r
             = facility_records
                 (nth g (random_uniform 0 low high n_particles n_facilities) [])).
Proof.
  intros H. apply optimize_Ok in H.
  destruct H as (low & high & st0 & st & total & asg & recs
                 & Hb & H0 & Hrun & Hev & _ & ->).
  simpl. split.
  - apply (run_iterations_counts _ _ _ _ _ H0 Hrun).
  - intros Hc.
    pose proof (run_no_iteration _ _ _ _ H0 Hc Hrun) as Hst.
    apply initial_state_Ok in H0.
    destruct H0 as (scores & g & Hs & Hg & Ep & Es & Er & _ & _ & Eh & Ec & _).
    assert (Esw : Loop.swarm st = Loop.swarm st0
                  /\ Loop.global_best_position st = Loop.global_best_position st0
                  /\ Loop.history st = Loop.history st0
                  /\ Loop.completed_iterations st = Loop.completed_iterations st0)
      by (destruct Hst as [-> | ->]; simpl; auto).
    destruct Esw as (E1 & E2 & E3 & E4).
    rewrite E1, E2, Er, Ep in Hev. cbn [deref] in Hev.
    rewrite E1, E2, E3, E4, Ec, Eh, Er, Ep. cbn [deref].
    split; [reflexivity | split; [reflexivity | ]].
    exists low, high, scores, g.
    destruct (np_argmin_spec _ _ Hg) as [Hlt Hmin].
    pose proof (mapM_Ok_length _ _ _ Hs) as Hlen.
    rewrite random_uniform_length in Hlen.
    assert (Hg' : (g < List.length
                         (random_uniform 0 low high n_particles n_facilities))%nat)
      by (rewrite random_uniform_length; lia).
    pose proof (mapM_Ok_nth _ _ _ g [] 0 Hs Hg') as Hscore.
    apply score_of_Ok in Hscore. destruct Hscore as (asg' & Hev').
    pose proof (eq_trans (eq_sym Hev) Hev') as E. injection E as -> _.
    repeat split; try assumption; lia.
Qed.

(** *** The bounding box *)

Lemma update_particle_box (low high : coord) (gbp : array_ref) (w : Q)
  (sw sw' : Swarm.state) (i : nat) :
  fst low <= fst high -> snd low <= snd high ->
  rows_in_box low high (Swarm.personal_best_positions sw) ->
  update low high gbp w sw i = Ok sw' ->
  rows_in_box low high (Swarm.personal_best_positions sw').
Proof.
  intros H1 H2 Hrows H. apply update_particle_Ok in H.
  destruct H as (p & v & s & _ & _ & _ & _ & [(_ & -> & _) | (_ & -> & _)]).
  - apply Forall_list_set; [exact Hrows | apply np_clip_in_box; assumption].
  - exact Hrows.
Qed.

Lemma box_inv_body (start : Q) (low high : coord) (iteration : nat)
  (st st' : Loop.state) :
  fst low <= fst high -> snd low <= snd high ->
  box_inv low high st -> body start low high iteration st = Ok st' ->
  box_inv low high st'.
Proof.
  intros H1 H2 [Hrows Href] H. apply iteration_body_Ok in H.
  destruct H as (sw & b & Hsw & _ & Esw & _ & _ & _ & Hg).
  assert (Hrows' : rows_in_box low high (Swarm.personal_best_positions sw)).
  { refine (sweep_invariant
              (fun s => rows_in_box low high (Swarm.personal_best_positions s))
              _ _ _ _ _ _ _ Hrows Hsw).
    intros i s s'. apply update_particle_box; assumption. }
  unfold box_inv. rewrite Esw. split; [exact Hrows' | ].
  destruct Hg as [(_ & _ & ->) | (_ & _ & ->)]; simpl.
  - apply rows_in_box_nth. exact Hrows'.
  - exact Href.
Qed.

Lemma In_facility_records (p : position) (fac : Fac.t) :
  In fac (facility_records p) -> In (Fac.Latitude fac, Fac.Longitude fac) p.
Proof.
  unfold facility_records. intros H. apply in_map_iff in H.
  destruct H as ([i c] & <- & Hin). simpl.
  apply in_combine_r in Hin. destruct c. exact Hin.
Qed.

(** C6.  When the generator yields numbers of [[0, 1]], every facility
    location returned by [optimize_facility_locations_pso] has its latitude
    between the least and the greatest customer latitude, and its longitude
    between the least and the greatest customer longitude. *)
Theorem C6_facilities_in_bounding_box (r : Result.t) (lat0 lat1 lon0 lon1 : Q)
  (fac : Fac.t) :
  (forall n, 0 <= np_random n <= 1) ->
  optimize = Ok r ->
  series_min (map Row.Latitude customers_df) = Some lat0 ->
  series_max (map Row.Latitude customers_df) = Some lat1 ->
  series_min (map Row.Longitude customers_df) = Some lon0 ->
  series_max (map Row.Longitude customers_df) = Some lon1 ->
  In fac (Result.facility_locations r) ->
  lat0 <= Fac.Latitude fac <= lat1 /\ lon0 <= Fac.Longitude fac <= lon1.
Proof.
  intros Hu H Ea Eb Ec Ed Hin. apply optimize_Ok in H.
  destruct H as (low & high & st0 & st & total & asg & recs
                 & Hb & H0 & Hrun & _ & _ & ->).
  simpl in Hin. apply bounds_Ok in Hb. destruct Hb as (Fa & Fb & Fc & Fd).
  assert (H1 : fst low <= fst high) by (eapply series_min_max; eassumption).
  assert (H2 : snd low <= snd high) by (eapply series_min_max; eassumption).
  assert (Hinv : box_inv low high st).
  { refine (run_iterations_invariant (box_inv low high) _ low high _ _ _ st0 st _ Hrun).
    - intros s Hs. exact Hs.
    - intros it s s'. apply box_inv_body; assumption.
    - apply initial_state_Ok in H0.
      destruct H0 as (scores & g & _ & _ & Ep & _ & Er & _).
      split; [rewrite Ep | rewrite Er; exact I].
      apply random_uniform_in_box; assumption. }
  destruct Hinv as [Hrows Href].
  pose proof (deref_in_box _ _ _ _ Hrows Href) as Hbox.
  rewrite Forall_forall in Hbox. apply In_facility_records in Hin.
  specialize (Hbox _ Hin). unfold in_box in Hbox. simpl in Hbox.
  rewrite Fa in Ea. rewrite Fb in Eb. rewrite Fc in Ec. rewrite Fd in Ed.
  injection Ea as <-. injection Eb as <-. injection Ec as <-. injection Ed as <-.
  exact Hbox.
Qed.

(** *** The optimizer returns *)














(** *** Reading the global best during a sweep *)

(** While the global best position is a view of row [g], an improving
    update of particle [g] changes the position read through it: it becomes
    the new position of that particle. *)
Lemma view_follows_personal_best (low high : coord) (w : Q)
  (sw sw' : Swarm.state) (g : nat) :
  (g < List.length (Swarm.particles sw))%nat ->
  (g < List.length (Swarm.personal_best_positions sw))%nat ->
  update low high (RowView g) w sw g = Ok sw' ->
  Swarm.personal_best_scores sw' <> Swarm.personal_best_scores sw ->
  deref (Swarm.personal_best_positions sw') (RowView g)
  = nth g (Swarm.particles sw') [].
Proof.
  intros Hp Hb H Hne. apply update_particle_Ok in H.
  destruct H as (p & v & s & _ & Ep & _ & _ & [(_ & Eb & _) | (_ & _ & Es)]).
  - simpl. rewrite Eb, Ep, !nth_list_set by assumption.
    rewrite Nat.eqb_refl. reflexivity.
  - contradiction.
Qed.

(** Once the global best position is an array of its own, a sweep reads
    the same position throughout: the reference is its own snapshot. *)
Lemma sweep_owned_snapshot (low high : coord) (p : position) (w : Q)
  (sw : Swarm.state) :
  sweep_particles low high (Owned p) w sw
  = sweep_particles low high
      (Owned (deref (Swarm.personal_best_positions sw) (Owned p))) w sw.
Proof.
  reflexivity.
Qed.

(** After an iteration that improves the global best, the global best
    position is an array of its own. *)
Lemma improved_global_best_is_owned (start : Q) (low high : coord)
  (iteration : nat) (st st' : Loop.state) :
  body start low high iteration st = Ok st' ->
  Loop.global_best_score st' < Loop.global_best_score st ->
  exists p, Loop.global_best_position st' = Owned p.
Proof.
  intros H Hlt. apply iteration_body_Ok in H.
  destruct H as (sw & b & _ & _ & _ & _ & _ & _ & [(_ & _ & ->) | (_ & E & _)]).
  - eauto.
  - rewrite E in Hlt. lra.
Qed.

(** *** Shapes *)

Lemma arr_scale_length (k : Q) (p : position) :
  List.length (arr_scale k p) = List.length p.
Proof.
  unfold arr_scale. apply length_map.
Qed.

Lemma arr_map2_length (f : Q -> Q -> Q) (p q : position) :
  List.length (arr_map2 f p q) = Nat.min (List.length p) (List.length q).
Proof.
  unfold arr_map2. rewrite length_map. apply length_combine.
Qed.

Lemma np_clip_length (p : position) (lo hi : coord) :
  List.length (np_clip p lo hi) = List.length p.
Proof.
  unfold np_clip. apply length_map.
Qed.

Lemma random_rand_length (d nf : nat) : List.length (random_rand d nf) = nf.
Proof.
  unfold random_rand. rewrite length_map. apply length_seq.
Qed.

Lemma random_uniform_rows (d : nat) (low high : coord) (np nf : nat) :
  Forall (fun p => List.length p = nf) (random_uniform d low high np nf).
Proof.
  unfold random_uniform. apply Forall_map, Forall_forall. intros i _.
  rewrite length_map. apply random_rand_length.
Qed.

Lemma Forall_nth_row (nf : nat) (rows : list position) (i : nat) :
  Forall (fun p => List.length p = nf) rows -> (i < List.length rows)%nat ->
  List.length (nth i rows []) = nf.
Proof.
  intros H Hi. rewrite Forall_forall in H. apply H. apply nth_In. exact Hi.
Qed.

Lemma update_particle_shape (low high : coord) (gbp : array_ref) (w : Q)
  (sw sw' : Swarm.state) (i : nat) :
  (i < n_particles)%nat ->
  shape_inv n_particles n_facilities sw ->
  ref_shape n_particles n_facilities gbp ->
  update low high gbp w sw i = Ok sw' ->
  shape_inv n_particles n_facilities sw'.
Proof.
  intros Hi (Lp & Lv & Lb & Ls & Rp & Rv & Rb) Hg H.
  assert (Hp : List.length (nth i (Swarm.particles sw) []) = n_facilities)
    by (apply Forall_nth_row; [exact Rp | lia]).
  assert (Hv : List.length (nth i (Swarm.velocities sw) []) = n_facilities)
    by (apply Forall_nth_row; [exact Rv | lia]).
  assert (Hb : List.length (nth i (Swarm.personal_best_positions sw) []) = n_facilities)
    by (apply Forall_nth_row; [exact Rb | lia]).
  assert (Hd : List.length (deref (Swarm.personal_best_positions sw) gbp) = n_facilities).
  { destruct gbp as [g | p]; simpl in *; [ | exact Hg].
    apply Forall_nth_row; [exact Rb | lia]. }
  unfold update_particle in H.
  match type of H with
  | bind (score_of _ _ _ _ _ (np_clip (arr_add _ ?v) _ _)) _ = _ =>
      assert (Hnv : List.length v = n_facilities)
  end.
  { unfold arr_add, arr_mul, arr_sub.
    repeat (rewrite arr_map2_length || rewrite arr_scale_length
            || rewrite random_rand_length).
    rewrite Hp, Hv, Hb, Hd. lia. }
  match type of H with
  | bind (score_of _ _ _ _ _ ?p) _ = _ =>
      assert (Hnp : List.length p = n_facilities)
  end.
  { rewrite np_clip_length. unfold arr_add at 1. rewrite arr_map2_length, Hp, Hnv. lia. }
  inv_bind H as s Hs.
  destruct (Qltb s _); injection H as <-; unfold shape_inv; simpl;
    rewrite ?list_set_length; repeat split; try assumption;
    apply Forall_list_set; assumption.
Qed.

Lemma sweep_shape (low high : coord) (gbp : array_ref) (w : Q)
  (sw sw' : Swarm.state) :
  shape_inv n_particles n_facilities sw ->
  ref_shape n_particles n_facilities gbp ->
  sweep_particles low high gbp w sw = Ok sw' ->
  shape_inv n_particles n_facilities sw'.
Proof.
  intros Hs Hg. unfold sweep.
  apply (foldM_invariant _ (fun _ => shape_inv n_particles n_facilities));
    [exact Hs | ].
  intros pre i rest s s' El Hsh Hu.
  apply (update_particle_shape low high gbp w s s' i); try assumption.
  assert (Hin : In i (seq 0 n_particles)) by (rewrite El; apply in_elt).
  apply in_seq in Hin. lia.
Qed.

Lemma iteration_body_shape (start : Q) (low high : coord) (iteration : nat)
  (st st' : Loop.state) :
  shape_inv n_particles n_facilities (Loop.swarm st)
  /\ ref_shape n_particles n_facilities (Loop.global_best_position st) ->
  body start low high iteration st = Ok st' ->
  shape_inv n_particles n_facilities (Loop.swarm st')
  /\ ref_shape n_particles n_facilities (Loop.global_best_position st').
Proof.
  intros [Hs Hg] H. apply iteration_body_Ok in H.
  destruct H as (sw & b & Hsw & Hb & Esw & _ & _ & _ & Href).
  pose proof (sweep_shape _ _ _ _ _ _ Hs Hg Hsw) as Hs'.
  rewrite Esw. split; [exact Hs' | ].
  destruct Href as [(_ & _ & ->) | (_ & _ & ->)]; [ | exact Hg].
  simpl. destruct Hs' as (_ & _ & Lb & Ls & _ & _ & Rb).
  apply np_argmin_spec in Hb. destruct Hb as [Hb _].
  apply Forall_nth_row; [exact Rb | lia].
Qed.

Lemma initial_state_shape (low high : coord) (st0 : Loop.state) :
  init low high = Ok st0 ->
  shape_inv n_particles n_facilities (Loop.swarm st0)
  /\ ref_shape n_particles n_facilities (Loop.global_best_position st0).
Proof.
  unfold initial_state. intros H. inv_bind H as scores Hs. inv_bind H as g Hg.
  injection H as <-. simpl.
  pose proof (mapM_Ok_length _ _ _ Hs) as Hlen.
  rewrite random_uniform_length in Hlen.
  apply np_argmin_spec in Hg. destruct Hg as [Hg _].
  unfold shape_inv. simpl. rewrite !random_uniform_length.
  repeat split; try apply random_uniform_rows; try assumption; lia.
Qed.

Lemma run_shape (start : Q) (low high : coord) (iterations : list nat)
  (st0 st : Loop.state) :
  init low high = Ok st0 ->
  run start low high iterations st0 = Ok st ->
  shape_inv n_particles n_facilities (Loop.swarm st)
  /\ ref_shape n_particles n_facilities (Loop.global_best_position st).
Proof.
  intros H0 H.
  refine (run_iterations_invariant
            (fun s => shape_inv n_particles n_facilities (Loop.swarm s)
                      /\ ref_shape n_particles n_facilities (Loop.global_best_position s))
            start low high _ _ iterations st0 st _ H).
  - intros s Hs. exact Hs.
  - intros it s s'. apply iteration_body_shape.
  - apply (initial_state_shape low high). exact H0.
Qed.

Lemma NoDup_map_injective {A B : Type} (f : A -> B) (l : list A) :
  (forall x y, f x = f y -> x = y) -> NoDup l -> NoDup (map f l).
Proof.
  intros Hf. induction 1 as [| a l Hn Hl IH]; simpl; constructor; [ | exact IH].
  intros Hin. apply in_map_iff in Hin. destruct Hin as (x & E & Hx).
  apply Hf in E. subst x. contradiction.
Qed.

Lemma facility_id_inj (i j : nat) : facility_id i = facility_id j -> i = j.
Proof.
  unfold facility_id. simpl. intros [= E].
  apply (f_equal NilEmpty.uint_of_string) in E. rewrite !NilEmpty.usu in E.
  injection E as E. apply (f_equal Nat.of_uint) in E.
  rewrite !Unsigned.of_to in E. lia.
Qed.

Lemma facility_records_ids (p : position) :
  map Fac.FacilityID (facility_records p) = map facility_id (seq 0 (List.length p)).
Proof.
  unfold facility_records. rewrite map_map. simpl.
  rewrite <- (map_map fst facility_id). f_equal.
  apply map_fst_combine. apply length_seq.
Qed.

(** X6.  The result lists exactly [n_facilities] facilities, identified
    [FAC1], ..., [FACn] in this order, with pairwise distinct identifiers. *)
Theorem X6_result_facilities_FAC1_to_FACn (r : Result.t) :
  optimize = Ok r ->
  map Fac.FacilityID (Result.facility_locations r)
  = map facility_id (seq 0 n_facilities)
  /\ List.length (Result.facility_locations r) = n_facilities
  /\ NoDup (map Fac.FacilityID (Result.facility_locations r)).
Proof.
  intros H. apply optimize_Ok in H.
  destruct H as (low & high & st0 & st & total & asg & recs & _ & H0 & Hrun & _ & _ & ->).
  simpl.
  destruct (run_shape _ _ _ _ _ _ H0 Hrun) as [Hs Hg].
  assert (Hlen : List.length (deref (Swarm.personal_best_positions (Loop.swarm st))
                                    (Loop.global_best_position st)) = n_facilities).
  { destruct Hs as (_ & _ & Lb & _ & _ & _ & Rb).
    destruct (Loop.global_best_position st) as [g | p]; simpl in *; [ | exact Hg].
    apply Forall_nth_row; [exact Rb | lia]. }
  assert (Hids : map Fac.FacilityID
                     (facility_records
                        (deref (Swarm.personal_best_positions (Loop.swarm st))
                               (Loop.global_best_position st)))
                 = map facility_id (seq 0 n_facilities))
    by (rewrite facility_records_ids, Hlen; reflexivity).
  split; [exact Hids | split].
  - apply (f_equal (@List.length string)) in Hids.
    rewrite !length_map, length_seq in Hids. exact Hids.
  - rewrite Hids. apply NoDup_map_injective; [ | apply seq_NoDup].
    intros i j. apply facility_id_inj.
Qed.

(** *** The assignment records *)

Lemma mapM_Forall2 {A B : Type} (f : A -> result B) (l : list A) (bs : list B) :
  mapM f l = Ok bs -> Forall2 (fun a b => f a = Ok b) l bs.
Proof.
  revert bs. induction l as [| a l IH]; intros bs H; simpl in H.
  - injection H as <-. constructor.
  - inv_bind H as b Hb. inv_bind H as bs' Hbs. injection H as <-.
    constructor; [exact Hb | apply IH; exact Hbs].
Qed.

Lemma fold_set_append {V : Type} (l d0 : dict V) :
  NoDup (keys d0 ++ keys l) ->
  fold_left (fun d kv => set d (fst kv) (snd kv)) l d0 = d0 ++ l.
Proof.
  revert d0. induction l as [| [c v] l IH]; intros d0 Hnd; simpl.
  - symmetry. apply app_nil_r.
  - assert (Hfresh : ~ In c (keys d0)).
    { simpl in Hnd. apply NoDup_remove_2 in Hnd. intros H. apply Hnd.
      apply in_or_app. left. exact H. }
    rewrite (set_fresh _ _ _ Hfresh), IH.
    + rewrite <- app_assoc. reflexivity.
    + unfold keys in *. rewrite map_app. simpl. rewrite <- app_assoc. exact Hnd.
Qed.

(** With distinct customer identifiers, [dict(zip(ids, values))] lists the
    rows in table order. *)
Lemma demands_of_distinct_ids (df : DataFrame) :
  NoDup (map Row.CustomerID df) ->
  demands df = map (fun row => (Row.CustomerID row, Row.Demand row)) df.
Proof.
  intros Hnd. unfold demands, customers, of_zip.
  assert (E : combine (map Row.CustomerID df) (map Row.Demand df)
              = map (fun row => (Row.CustomerID row, Row.Demand row)) df)
    by (clear; induction df as [| row df IH]; simpl; [ | rewrite IH]; reflexivity).
  rewrite E, fold_set_append; [reflexivity | ].
  simpl. unfold keys. rewrite map_map. simpl. exact Hnd.
Qed.

Lemma assignment_records_Ok (asg : dict (option nat)) (recs : list Asg.t) :
  assignment_records customers_df asg = Ok recs ->
  Forall2 (fun (cf : string * option nat) (a : Asg.t) =>
             Asg.CustomerID a = fst cf
             /\ get (demands customers_df) (fst cf) = Some (Asg.Demand a)
             /\ Asg.FacilityID a = match snd cf with
                                   | Some f => Some (facility_id f)
                                   | None => None
                                   end)
          asg recs.
Proof.
  unfold assignment_records. intros H. apply mapM_Forall2 in H.
  induction H as [| [c f] a l bs Hab _ IH]; constructor; [ | exact IH].
  simpl. destruct (get (demands customers_df) c) as [d | ]; [ | discriminate].
  injection Hab as <-. simpl. auto.
Qed.

Lemma keys_demands_ids (df : DataFrame) (c : string) :
  In c (keys (demands df)) <-> In c (map Row.CustomerID df).
Proof.
  unfold demands, customers. rewrite keys_of_zip, map_fst_combine;
    [tauto | rewrite !length_map; reflexivity].
Qed.

(** The mapping computed for the final position lists the keys of
    [demands] and only facility indices below [n_facilities]. *)
Lemma final_assignments_facts (start : Q) (low high : coord)
  (iterations : list nat) (st0 st : Loop.state) (total : Q)
  (asg : dict (option nat)) :
  init low high = Ok st0 ->
  run start low high iterations st0 = Ok st ->
  evaluate (deref (Swarm.personal_best_positions (Loop.swarm st))
                  (Loop.global_best_position st)) = Ok (total, asg) ->
  keys asg = keys (demands customers_df)
  /\ NoDup (keys (demands customers_df))
  /\ forall c f, In (c, Some f) asg -> (f < n_facilities)%nat.
Proof.
  intros H0 Hrun Hev.
  pose proof (NoDup_keys_of_zip (customers customers_df)
                (map Row.Demand customers_df)) as Hnd.
  fold (demands customers_df) in Hnd.
  pose proof (total_cost_is_spec _ _ _ _ _ _ _ _ _ _ Hnd Hev) as [Hk _].
  apply calculate_total_cost_Ok in Hev. destruct Hev as (es & Hes & Easg & _).
  destruct (eval_loop_inv _ _ _ _ _ _ _ Hnd Hes) as (_ & _ & _ & _ & _ & _ & Hrange).
  rewrite <- Easg in Hrange. clear es Hes Easg.
  destruct (run_shape _ _ _ _ _ _ H0 Hrun) as [Hs Hg].
  assert (Hlen : List.length (deref (Swarm.personal_best_positions (Loop.swarm st))
                                    (Loop.global_best_position st)) = n_facilities).
  { destruct Hs as (_ & _ & Lb & _ & _ & _ & Rb).
    destruct (Loop.global_best_position st) as [g | p]; simpl in *; [ | exact Hg].
    apply Forall_nth_row; [exact Rb | lia]. }
  rewrite Hlen in Hrange.
  split; [exact Hk | split; [exact Hnd | exact Hrange]].
Qed.

(** Every assignment record comes from one entry of the mapping. *)
Lemma assignment_record_origin (asg : dict (option nat)) (recs : list Asg.t)
  (a : Asg.t) :
  assignment_records customers_df asg = Ok recs ->
  In a recs ->
  exists cf, In cf asg
             /\ Asg.CustomerID a = fst cf
             /\ get (demands customers_df) (fst cf) = Some (Asg.Demand a)
             /\ Asg.FacilityID a = match snd cf with
                                   | Some f => Some (facility_id f)
                                   | None => None
                                   end.
Proof.
  intros Hrecs Ha. apply assignment_records_Ok in Hrecs.
  induction Hrecs as [| cf b l bs Hb _ IH]; [destruct Ha | ].
  destruct Ha as [<- | Ha].
  - exists cf. split; [left; reflexivity | exact Hb].
  - destruct (IH Ha) as (cf' & Hin & Hrest). exists cf'.
    split; [right; exact Hin | exact Hrest].
Qed.

(** X7.  The assignment table of the result has one record per distinct customer
    identifier, in the order of first occurrence; each record carries the
    demand that [demands] holds for the customer and either no facility or
    one of [FAC1], ..., [FACn].  With distinct identifiers the records
    follow the customer table row by row. *)
Theorem X7_result_assignment_records (r : Result.t) :
  optimize = Ok r ->
  map Asg.CustomerID (Result.assignments r) = keys (demands customers_df)
  /\ NoDup (map Asg.CustomerID (Result.assignments r))
  /\ (forall c, In c (map Asg.CustomerID (Result.assignments r))
                <-> In c (map Row.CustomerID customers_df))
  /\ (forall a, In a (Result.assignments r) ->
                get (demands customers_df) (Asg.CustomerID a) = Some (Asg.Demand a)
                /\ (Asg.FacilityID a = None
                    \/ exists f, (f < n_facilities)%nat
                                 /\ Asg.FacilityID a = Some (facility_id f)))
  /\ (NoDup (map Row.CustomerID customers_df) ->
      map (fun a => (Asg.CustomerID a, Asg.Demand a)) (Result.assignments r)
      = map (fun row => (Row.CustomerID row, Row.Demand row)) customers_df).
Proof.
  intros H. apply optimize_Ok in H.
  destruct H as (low & high & st0 & st & total & asg & recs
                 & _ & H0 & Hrun & Hev & Hrecs & ->).
  simpl.
  destruct (final_assignments_facts _ _ _ _ _ _ _ _ H0 Hrun Hev)
    as (Hk & Hnd & Hrange).
  pose proof (fun a => assignment_record_origin _ _ a Hrecs) as Horigin.
  apply assignment_records_Ok in Hrecs.
  assert (Hids : map Asg.CustomerID recs = keys asg).
  { clear - Hrecs. induction Hrecs as [| cf a l bs (E & _) _ IH]; simpl;
      [reflexivity | rewrite E, IH; reflexivity]. }
  assert (Hpairs : map (fun a => (Asg.CustomerID a, Some (Asg.Demand a))) recs
                   = map (fun cf : string * option nat =>
                            (fst cf, get (demands customers_df) (fst cf))) asg).
  { clear - Hrecs. induction Hrecs as [| cf a l bs (E & Ed & _) _ IH]; simpl;
      [reflexivity | rewrite E, Ed, IH; reflexivity]. }
  rewrite Hids, Hk. split; [reflexivity | split; [exact Hnd | split; [ | split]]].
  - intros c. apply keys_demands_ids.
  - intros a Ha.
    destruct (Horigin a Ha) as ([c o] & Hin & Ec & Ed & Ef). simpl in *.
    rewrite Ec. split; [exact Ed | ].
    destruct o as [f | ]; [right | left; exact Ef].
    exists f. split; [eapply Hrange; exact Hin | exact Ef].
  - intros Hdist. rewrite (demands_of_distinct_ids _ Hdist) in *.
    assert (Easg : map (fun cf : string * option nat =>
                          (fst cf,
                           get (map (fun row => (Row.CustomerID row, Row.Demand row))
                                    customers_df) (fst cf))) asg
                   = map (fun row => (Row.CustomerID row, Some (Row.Demand row)))
                         customers_df).
    { rewrite <- (map_map fst (fun c => (c, get _ c))). fold (keys asg). rewrite Hk.
      unfold keys. rewrite !map_map. apply map_ext_in. intros row Hrow. simpl.
      f_equal. apply get_In.
      - unfold keys. rewrite map_map. exact Hdist.
      - apply (in_map (fun row => (Row.CustomerID row, Row.Demand row))). exact Hrow. }
    rewrite Easg in Hpairs.
    apply (f_equal (map (fun p : string * option Q =>
                           (fst p, match snd p with Some d => d | None => 0 end))))
      in Hpairs.
    rewrite !map_map in Hpairs. simpl in Hpairs. exact Hpairs.
Qed.

(** *** History and time budget *)

Lemma map_index_seq {A : Type} (f : A -> nat) (l : list A) (a : nat) :
  (forall k e, nth_error l k = Some e -> f e = (a + k)%nat) ->
  map f l = seq a (List.length l).
Proof.
  revert a. induction l as [| x l IH]; intros a H; simpl; [reflexivity | ].
  f_equal.
  - rewrite (H 0%nat x eq_refl). lia.
  - apply IH. intros k e Hk. rewrite (H (S k) e Hk). lia.
Qed.

(** X8.  The history has one entry per completed iteration, numbered from 0. *)
Theorem X8_history_one_entry_per_iteration (r : Result.t) :
  optimize = Ok r ->
  List.length (Result.history r) = Result.completed_iterations r
  /\ map Hist.iteration (Result.history r) = seq 0 (Result.completed_iterations r).
Proof.
  intros H. apply optimize_Ok in H.
  destruct H as (low & high & st0 & st & total & asg & recs & _ & H0 & Hrun & _ & _ & ->).
  simpl.
  destruct (run_iterations_counts _ _ _ _ _ H0 Hrun) as (_ & _ & Hlen & Hit & _).
  split; [exact Hlen | ]. rewrite <- Hlen. apply map_index_seq. exact Hit.
Qed.

Lemma iteration_body_clock (start : Q) (low high : coord) (iteration : nat)
  (st st' : Loop.state) :
  body start low high iteration st = Ok st' ->
  Loop.clock_reads st' = S (Loop.clock_reads st)
  /\ Loop.completed_iterations st' = S iteration.
Proof.
  unfold iteration_body. intros H. inv_bind H as sw Hsw. inv_bind H as b Hb.
  injection H as <-. simpl. split; [reflexivity | lia].
Qed.

Lemma run_iterations_budget (start : Q) (low high : coord) (k : nat) :
  forall m a st st',
    Loop.completed_iterations st = a ->
    Loop.clock_reads st = (1 + 2 * a)%nat ->
    (a <= k <= a + m)%nat ->
    (forall j, (a <= j < k)%nat ->
               time_time (1 + 2 * j) - start <= max_run_time_seconds) ->
    (k = (a + m)%nat \/ max_run_time_seconds < time_time (1 + 2 * k) - start) ->
    run start low high (seq a m) st = Ok st' ->
    Loop.completed_iterations st' = k.
Proof.
  induction m as [| m IH]; intros a st st' Hc Hclk Hk Hin Hout H; simpl in H.
  - injection H as <-. lia.
  - rewrite Hclk in H.
    destruct (Qltb max_run_time_seconds (time_time (1 + 2 * a) - start)) eqn:E.
    + injection H as <-. simpl. apply Qltb_lt in E.
      destruct (Nat.eq_dec k a) as [-> | Hne]; [exact Hc | ].
      specialize (Hin a ltac:(lia)). lra.
    + apply Qltb_ge in E. inv_bind H as st1 H1.
      assert (Hka : k <> a).
      { intros ->. destruct Hout as [Hout | Hout]; [lia | lra]. }
      apply iteration_body_clock in H1. destruct H1 as [Hclk1 Hc1].
      apply (IH (S a) st1 st'); try assumption.
      * rewrite Hclk1. simpl. lia.
      * lia.
      * intros j Hj. apply Hin. lia.
      * destruct Hout as [-> | Hout]; [left; lia | right; exact Hout].
Qed.

(** X9.  The time check of iteration [j] is the call number [1 + 2 j] of
    [time.time()].  The loop completes exactly [k] iterations when the
    first [k] checks find the elapsed time within the budget and either
    [k = n_iterations] or the next check finds the budget exceeded; in
    particular every iteration runs when no check exceeds the budget. *)
Theorem X9_completed_iterations_by_budget (r : Result.t) (k : nat) :
  (k <= n_iterations)%nat ->
  (forall j, (j < k)%nat ->
             time_time (1 + 2 * j) - time_time 0 <= max_run_time_seconds) ->
  (k = n_iterations
   \/ max_run_time_seconds < time_time (1 + 2 * k) - time_time 0) ->
  optimize = Ok r ->
  Result.completed_iterations r = k.
Proof.
  intros Hk Hin Hout H. apply optimize_Ok in H.
  destruct H as (low & high & st0 & st & total & asg & recs & _ & H0 & Hrun & _ & _ & ->).
  simpl. apply initial_state_Ok in H0.
  destruct H0 as (scores & g & _ & _ & _ & _ & _ & _ & _ & _ & Ec & Eclk).
  apply (run_iterations_budget (time_time 0) low high k n_iterations 0%nat st0 st);
    try assumption.
  - lia.
  - intros j Hj. apply Hin. lia.
Qed.

(** *** Scores and positions agree *)

Lemma update_particle_pairs (low high : coord) (gbp : array_ref) (w : Q)
  (sw sw' : Swarm.state) (i : nat) :
  List.length (Swarm.personal_best_scores sw)
  = List.length (Swarm.personal_best_positions sw) ->
  (forall j, (j < List.length (Swarm.personal_best_positions sw))%nat ->
             score (nth j (Swarm.personal_best_positions sw) [])
             = Ok (nth j (Swarm.personal_best_scores sw) 0)) ->
  update low high gbp w sw i = Ok sw' ->
  List.length (Swarm.personal_best_positions sw')
  = List.length (Swarm.personal_best_positions sw)
  /\ List.length (Swarm.personal_best_scores sw')
     = List.length (Swarm.personal_best_positions sw')
  /\ (forall j, (j < List.length (Swarm.personal_best_positions sw'))%nat ->
                score (nth j (Swarm.personal_best_positions sw') [])
                = Ok (nth j (Swarm.personal_best_scores sw') 0)).
Proof.
  intros Hlen Hpairs H. apply update_particle_Ok in H.
  destruct H as (p & v & s & Hs & _ & _ & _ & [(_ & -> & ->) | (_ & -> & ->)]);
    [ | auto].
  rewrite !list_set_length. split; [reflexivity | split; [exact Hlen | ]].
  intros j Hj.
  destruct (Nat.lt_ge_cases i (List.length (Swarm.personal_best_positions sw)))
    as [Hi | Hi].
  - rewrite !nth_list_set by lia.
    destruct (Nat.eqb j i); [exact Hs | apply Hpairs; exact Hj].
  - rewrite !list_set_out_of_range by lia. apply Hpairs. exact Hj.
Qed.

(** During a sweep, row [g] of the personal bests is either untouched or
    holds a strictly lower score than at the start of the sweep. *)
Lemma update_particle_row (low high : coord) (gbp : array_ref) (w : Q)
  (sw0 sw sw' : Swarm.state) (i g : nat) :
  List.length (Swarm.personal_best_scores sw)
  = List.length (Swarm.personal_best_positions sw) ->
  (nth g (Swarm.personal_best_positions sw) []
   = nth g (Swarm.personal_best_positions sw0) []
   /\ nth g (Swarm.personal_best_scores sw) 0 = nth g (Swarm.personal_best_scores sw0) 0)
  \/ nth g (Swarm.personal_best_scores sw) 0 < nth g (Swarm.personal_best_scores sw0) 0 ->
  update low high gbp w sw i = Ok sw' ->
  (nth g (Swarm.personal_best_positions sw') []
   = nth g (Swarm.personal_best_positions sw0) []
   /\ nth g (Swarm.personal_best_scores sw') 0 = nth g (Swarm.personal_best_scores sw0) 0)
  \/ nth g (Swarm.personal_best_scores sw') 0 < nth g (Swarm.personal_best_scores sw0) 0.
Proof.
  intros Hlen Hrow H. apply update_particle_Ok in H.
  destruct H as (p & v & s & _ & _ & _ & _ & [(Hlt & -> & ->) | (_ & -> & ->)]);
    [ | exact Hrow].
  destruct (Nat.lt_ge_cases i (List.length (Swarm.personal_best_positions sw)))
    as [Hi | Hi].
  - rewrite !nth_list_set by lia.
    destruct (Nat.eqb_spec g i) as [-> | Hne]; [ | exact Hrow].
    right. destruct Hrow as [[_ E] | Hrow]; [rewrite <- E; exact Hlt | lra].
  - rewrite !list_set_out_of_range by lia. exact Hrow.
Qed.

Lemma score_inv_body (start : Q) (low high : coord) (iteration : nat)
  (st st' : Loop.state) :
  score_inv customers_df facility_capacity fixed_cost cost_per_km units_per_load st ->
  body start low high iteration st = Ok st' ->
  score_inv customers_df facility_capacity fixed_cost cost_per_km units_per_load st'.
Proof.
  intros (Hlen & Hpairs & Href & _) H. apply iteration_body_Ok in H.
  destruct H as (sw & b & Hsw & Hb & Esw & _ & _ & Eh & Hg).
  set (sw0 := Loop.swarm st) in *.
  assert (Hsweep :
            (List.length (Swarm.personal_best_positions sw)
             = List.length (Swarm.personal_best_positions sw0)
             /\ List.length (Swarm.personal_best_scores sw)
                = List.length (Swarm.personal_best_positions sw)
             /\ (forall j, (j < List.length (Swarm.personal_best_positions sw))%nat ->
                           score (nth j (Swarm.personal_best_positions sw) [])
                           = Ok (nth j (Swarm.personal_best_scores sw) 0)))
            /\ forall g,
                (nth g (Swarm.personal_best_positions sw) []
                 = nth g (Swarm.personal_best_positions sw0) []
                 /\ nth g (Swarm.personal_best_scores sw) 0
                    = nth g (Swarm.personal_best_scores sw0) 0)
                \/ nth g (Swarm.personal_best_scores sw) 0
                   < nth g (Swarm.personal_best_scores sw0) 0).
  { refine (sweep_invariant
              (fun s =>
                 (List.length (Swarm.personal_best_positions s)
                  = List.length (Swarm.personal_best_positions sw0)
                  /\ List.length (Swarm.personal_best_scores s)
                     = List.length (Swarm.personal_best_positions s)
                  /\ (forall j, (j < List.length (Swarm.personal_best_positions s))%nat ->
                                score (nth j (Swarm.personal_best_positions s) [])
                                = Ok (nth j (Swarm.personal_best_scores s) 0)))
                 /\ forall g,
                     (nth g (Swarm.personal_best_positions s) []
                      = nth g (Swarm.personal_best_positions sw0) []
                      /\ nth g (Swarm.personal_best_scores s) 0
                         = nth g (Swarm.personal_best_scores sw0) 0)
                     \/ nth g (Swarm.personal_best_scores s) 0
                        < nth g (Swarm.personal_best_scores sw0) 0)
              _ _ _ _ _ _ _ _ Hsw).
    - intros i s s' [(L0 & L1 & P1) Hrow] Hu.
      destruct (update_particle_pairs _ _ _ _ _ _ _ L1 P1 Hu) as (L0' & L1' & P1').
      split; [split; [congruence | split; assumption] | ].
      intros g. eapply update_particle_row; [exact L1 | apply Hrow | exact Hu].
    - split; [split; [reflexivity | split; assumption] | ].
      intros g. left. split; reflexivity. }
  destruct Hsweep as [(L0 & L1 & P1) Hrow].
  destruct (np_argmin_spec _ _ Hb) as [Hblt Hbmin].
  unfold score_inv. rewrite Esw. split; [exact L1 | split; [exact P1 | split]].
  - destruct Hg as [(_ & -> & ->) | (Hge & -> & ->)].
    + apply P1. lia.
    + destruct (Loop.global_best_position st) as [g | p]; [ | exact Href].
      destruct Href as [Hgl Hgs]. split; [lia | ].
      assert (Hin : In (nth g (Swarm.personal_best_scores sw) 0)
                       (Swarm.personal_best_scores sw))
        by (apply nth_In; lia).
      specialize (Hbmin _ Hin).
      destruct (Hrow g) as [[_ E] | Hlt]; [rewrite E; exact Hgs | ].
      fold sw0 in Hgs. rewrite <- Hgs in Hlt. lra.
  - intros e. rewrite Eh, length_app. simpl.
    replace (pred (List.length (Loop.history st) + 1))
      with (List.length (Loop.history st)) by lia.
    rewrite nth_error_app2, Nat.sub_diag by lia. simpl.
    intros [= <-]. reflexivity.
Qed.

Lemma score_inv_init (low high : coord) (st0 : Loop.state) :
  init low high = Ok st0 ->
  score_inv customers_df facility_capacity fixed_cost cost_per_km units_per_load st0.
Proof.
  intros H. apply initial_state_Ok in H.
  destruct H as (scores & g & Hs & Hg & Ep & Es & Er & Egs & _ & Eh & _).
  pose proof (mapM_Ok_length _ _ _ Hs) as Hlen.
  unfold score_inv. rewrite Ep, Es, Er, Egs, Eh.
  split; [exact Hlen | split; [ | split]].
  - intros i Hi. apply mapM_Ok_nth; assumption.
  - apply np_argmin_spec in Hg. split; [lia | reflexivity].
  - intros e He. discriminate He.
Qed.

Lemma run_score_inv (start : Q) (low high : coord) (iterations : list nat)
  (st0 st : Loop.state) :
  init low high = Ok st0 ->
  run start low high iterations st0 = Ok st ->
  score_inv customers_df facility_capacity fixed_cost cost_per_km units_per_load st.
Proof.
  intros H0 H.
  refine (run_iterations_invariant
            (score_inv customers_df facility_capacity fixed_cost cost_per_km
                       units_per_load)
            start low high _ _ iterations st0 st _ H).
  - intros s Hs. exact Hs.
  - intros it s s'. apply score_inv_body.
  - apply (score_inv_init low high). exact H0.
Qed.

(** The cost of the position read through the global best reference is the
    global best score, view or not. *)
Lemma global_best_score_is_cost (st : Loop.state) (total : Q)
  (asg : dict (option nat)) :
  score_inv customers_df facility_capacity fixed_cost cost_per_km units_per_load st ->
  evaluate (deref (Swarm.personal_best_positions (Loop.swarm st))
                  (Loop.global_best_position st)) = Ok (total, asg) ->
  total = Loop.global_best_score st.
Proof.
  intros (_ & Hpairs & Href & _) Hev.
  assert (Hs : score (deref (Swarm.personal_best_positions (Loop.swarm st))
                            (Loop.global_best_position st))
               = Ok (Loop.global_best_score st)).
  { destruct (Loop.global_best_position st) as [g | p]; simpl; [ | exact Href].
    destruct Href as [Hg ->]. apply Hpairs. exact Hg. }
  apply score_of_Ok in Hs. destruct Hs as (asg' & Hev').
  pose proof (eq_trans (eq_sym Hev) Hev') as E. injection E as -> _. reflexivity.
Qed.

(** X10.  The total cost of the result is the best score recorded for the last
    completed iteration, and no recorded best score is below it. *)
Theorem X10_total_cost_is_last_best_score (r : Result.t) :
  optimize = Ok r ->
  (forall e,
      nth_error (Result.history r) (pred (List.length (Result.history r))) = Some e ->
      Hist.best_score e = Result.total_cost r)
  /\ (forall e, In e (Result.history r) -> Result.total_cost r <= Hist.best_score e).
Proof.
  intros H. apply optimize_Ok in H.
  destruct H as (low & high & st0 & st & total & asg & recs
                 & _ & H0 & Hrun & Hev & _ & ->).
  simpl.
  pose proof (run_score_inv _ _ _ _ _ _ H0 Hrun) as Hinv.
  pose proof (global_best_score_is_cost _ _ _ Hinv Hev) as ->.
  split.
  - destruct Hinv as (_ & _ & _ & Hlast). exact Hlast.
  - apply (run_history_desc _ _ _ _ _ H0 Hrun).
Qed.

(** X11.  The total cost of the result is at most the cost of every initial
    particle: iterating never makes the solution worse than the best of the
    random initial positions. *)
Theorem X11_total_cost_at_most_initial_scores (r : Result.t) :
  optimize = Ok r ->
  exists low high scores,
    bounds customers_df = Ok (low, high)
    /\ mapM score (random_uniform 0 low high n_particles n_facilities) = Ok scores
    /\ forall s, In s scores -> Result.total_cost r <= s.
Proof.
  intros H. apply optimize_Ok in H.
  destruct H as (low & high & st0 & st & total & asg & recs
                 & Hb & H0 & Hrun & Hev & _ & ->).
  simpl.
  pose proof (run_score_inv _ _ _ _ _ _ H0 Hrun) as Hinv.
  pose proof (global_best_score_is_cost _ _ _ Hinv Hev) as ->.
  apply initial_state_Ok in H0.
  destruct H0 as (scores & g & Hs & Hg & _ & _ & _ & Egs & _).
  exists low, high, scores. split; [exact Hb | split; [exact Hs | ]].
  assert (Hle : Loop.global_best_score st <= Loop.global_best_score st0).
  { refine (run_iterations_invariant
              (fun s => Loop.global_best_score s <= Loop.global_best_score st0)
              _ low high _ _ _ st0 st _ Hrun).
    - intros s Hs'. exact Hs'.
    - intros it s s' Hs' Hbody. apply iteration_body_Ok in Hbody.
      destruct Hbody as (sw & b & _ & _ & _ & _ & _ & _
                         & [(Hlt & -> & _) | (_ & -> & _)]); lra.
    - lra. }
  intros s Hin. apply np_argmin_spec in Hg. destruct Hg as [_ Hmin].
  specialize (Hmin s Hin). rewrite Egs in Hle. lra.
Qed.

(** *** The connection lines drawn for a result *)

Lemma iloc0_None {A : Type} (mask : A -> bool) (l : list A) :
  iloc0 mask l = None <-> forall x, In x l -> mask x = false.
Proof.
  unfold iloc0. induction l as [| a l IH]; simpl.
  - split; [intros _ x [] | reflexivity].
  - destruct (mask a) eqn:Ea; simpl.
    + split; [discriminate | ]. intros H. specialize (H a (or_introl eq_refl)).
      congruence.
    + rewrite IH. split.
      * intros H x [<- | Hx]; [exact Ea | apply H; exact Hx].
      * intros H x Hx. apply H. right. exact Hx.
Qed.

Lemma iloc0_Some {A : Type} (mask : A -> bool) (l : list A) (x : A) :
  iloc0 mask l = Some x -> In x l /\ mask x = true.
Proof.
  unfold iloc0. intros H.
  assert (Hin : In x (filter mask l)).
  { destruct (filter mask l) as [| y ys]; [discriminate | ].
    injection H as ->. left. reflexivity. }
  apply filter_In in Hin. exact Hin.
Qed.

Lemma connection_None_iff (facs : list Fac.t) (df : DataFrame) (a : Asg.t)
  (fid : string) :
  connection facs df a fid = None
  <-> ~ In (Asg.CustomerID a) (map Row.CustomerID df)
      \/ ~ In fid (map Fac.FacilityID facs).
Proof.
  unfold connection.
  destruct (iloc0 (fun row => String.eqb (Row.CustomerID row) (Asg.CustomerID a)) df)
    as [row | ] eqn:E1.
  - destruct (iloc0 (fun row => String.eqb (Fac.FacilityID row) fid) facs)
      as [fac | ] eqn:E2.
    + split; [discriminate | ].
      apply iloc0_Some in E1, E2. destruct E1 as [I1 M1], E2 as [I2 M2].
      apply String.eqb_eq in M1, M2.
      intros [H | H]; exfalso; apply H; apply in_map_iff;
        [exists row | exists fac]; auto.
    + split; [ | reflexivity]. intros _. right. intros Hin.
      apply in_map_iff in Hin. destruct Hin as (fac & <- & Hfac).
      pose proof (proj1 (iloc0_None _ _) E2 fac Hfac) as Hm. simpl in Hm.
      rewrite String.eqb_refl in Hm. discriminate.
  - split; [ | reflexivity]. intros _. left. intros Hin.
    apply in_map_iff in Hin. destruct Hin as (row & Erow & Hrow).
    pose proof (proj1 (iloc0_None _ _) E1 row Hrow) as Hm. simpl in Hm.
    rewrite Erow, String.eqb_refl in Hm. discriminate.
Qed.

Lemma add_connection_None (facs : list Fac.t) (df : DataFrame) (asgs : list Asg.t) :
  fold_left (add_connection facs df) asgs None = None.
Proof. induction asgs as [| a asgs IH]; simpl; [reflexivity | exact IH]. Qed.

Lemma connections_fold_Some (facs : list Fac.t) (df : DataFrame)
  (asgs : list Asg.t) (acc res : list Conn.t) :
  fold_left (add_connection facs df) asgs (Some acc) = Some res ->
  exists cs,
    res = acc ++ cs
    /\ Forall2 (fun a c => exists fid, Asg.FacilityID a = Some fid
                                       /\ connection facs df a fid = Some c)
               (filter has_facility asgs) cs.
Proof.
  revert acc. induction asgs as [| a asgs IH]; intros acc H; simpl in H.
  - injection H as <-. exists []. split; [symmetry; apply app_nil_r | constructor].
  - cbn [filter]. unfold has_facility at 1.
    destruct (Asg.FacilityID a) as [fid | ] eqn:Ea.
    + destruct (connection facs df a fid) as [c | ] eqn:Ec.
      * destruct (IH _ H) as (cs & -> & Hcs). exists (c :: cs). split.
        -- rewrite <- app_assoc. reflexivity.
        -- constructor; [ | exact Hcs]. exists fid. auto.
      * rewrite add_connection_None in H. discriminate.
    + destruct (IH _ H) as (cs & -> & Hcs). exists cs. split; [reflexivity | ].
      exact Hcs.
Qed.

Lemma connections_fold_None (facs : list Fac.t) (df : DataFrame)
  (asgs : list Asg.t) (acc : list Conn.t) :
  fold_left (add_connection facs df) asgs (Some acc) = None
  <-> exists a fid, In a asgs /\ Asg.FacilityID a = Some fid
                    /\ connection facs df a fid = None.
Proof.
  revert acc. induction asgs as [| a asgs IH]; intros acc; simpl.
  - split; [discriminate | intros (a & fid & [] & _)].
  - destruct (Asg.FacilityID a) as [fid | ] eqn:Ea.
    + destruct (connection facs df a fid) as [c | ] eqn:Ec.
      * rewrite IH. split.
        -- intros (b & fb & Hb & Hrest). exists b, fb. split; [right | ]; assumption.
        -- intros (b & fb & [<- | Hb] & Eb & Hc); [congruence | ].
           exists b, fb. auto.
      * rewrite add_connection_None. split; [intros _ | reflexivity].
        exists a, fid. split; [left; reflexivity | split; assumption].
    + rewrite IH. split.
      * intros (b & fb & Hb & Hrest). exists b, fb. split; [right | ]; assumption.
      * intros (b & fb & [<- | Hb] & Eb & Hc); [congruence | ].
        exists b, fb. auto.
Qed.

(** X12.  Building the connection list fails with an [IndexError] exactly when
    some assignment record names a facility and either its customer is
    missing from the customer table or its facility is missing from the
    facility table; records without a facility are never looked up. *)
Theorem X12_connections_IndexError_iff (facs : list Fac.t) (df : DataFrame)
  (asgs : list Asg.t) :
  connections facs df asgs = None
  <-> exists a fid,
      In a asgs /\ Asg.FacilityID a = Some fid
      /\ (~ In (Asg.CustomerID a) (map Row.CustomerID df)
          \/ ~ In fid (map Fac.FacilityID facs)).
Proof.
  unfold connections. rewrite connections_fold_None.
  split; intros (a & fid & Ha & Ef & Hc); exists a, fid;
    (split; [exact Ha | split; [exact Ef | ]]);
    apply connection_None_iff; exact Hc.
Qed.

Lemma final_position_length (start : Q) (low high : coord)
  (iterations : list nat) (st0 st : Loop.state) :
  init low high = Ok st0 ->
  run start low high iterations st0 = Ok st ->
  List.length (deref (Swarm.personal_best_positions (Loop.swarm st))
                     (Loop.global_best_position st)) = n_facilities.
Proof.
  intros H0 Hrun. destruct (run_shape _ _ _ _ _ _ H0 Hrun) as [Hs Hg].
  destruct Hs as (_ & _ & Lb & _ & _ & _ & Rb).
  destruct (Loop.global_best_position st) as [g | p]; simpl in *; [ | exact Hg].
  apply Forall_nth_row; [exact Rb | lia].
Qed.

Lemma NoDup_map_In_inj {A B : Type} (key : A -> B) (l : list A) (x y : A) :
  NoDup (map key l) -> In x l -> In y l -> key x = key y -> x = y.
Proof.
  induction l as [| a l IH]; simpl; intros Hnd Hx Hy E; [destruct Hx | ].
  inversion Hnd as [| ? ? Hnotin Hnd']; subst.
  destruct Hx as [-> | Hx], Hy as [-> | Hy].
  - reflexivity.
  - exfalso. apply Hnotin. rewrite E. apply in_map. exact Hy.
  - exfalso. apply Hnotin. rewrite <- E. apply in_map. exact Hx.
  - apply IH; assumption.
Qed.

Lemma facility_records_nth (p : position) (f : nat) :
  (f < List.length p)%nat ->
  exists fac, nth_error (facility_records p) f = Some fac
              /\ Fac.FacilityID fac = facility_id f.
Proof.
  intros Hf.
  assert (Hlen : List.length (facility_records p) = List.length p).
  { pose proof (f_equal (@List.length string) (facility_records_ids p)) as E.
    rewrite !length_map, length_seq in E. exact E. }
  destruct (nth_error (facility_records p) f) as [fac | ] eqn:E.
  - exists fac. split; [reflexivity | ].
    pose proof (map_nth_error Fac.FacilityID _ _ E) as E'.
    rewrite facility_records_ids in E'.
    rewrite (nth_error_nth' _ EmptyString) in E'
      by (rewrite length_map, length_seq; exact Hf).
    injection E' as <-.
    rewrite (nth_indep _ _ (facility_id 0)) by (rewrite length_map, length_seq; exact Hf).
    rewrite map_nth, seq_nth by exact Hf. reflexivity.
  - apply nth_error_None in E. lia.
Qed.

(** X13.  On the tables of a result in which every customer is assigned, so
    that the [FacilityID] column holds no missing value, the connection list
    of the map is always built: it holds one connection per assignment
    record, in record order.  Its source is the longitude and latitude of
    the first customer row with the record's identifier, and its target is
    the longitude and latitude of the facility record at the position the
    identifier [FACf] numbers. *)
Theorem X13_result_map_connections (r : Result.t) :
  optimize = Ok r ->
  (forall a, In a (Result.assignments r) -> Asg.FacilityID a <> None) ->
  exists conns,
    connections (Result.facility_locations r) customers_df (Result.assignments r)
    = Some conns
    /\ Forall2
         (fun a c =>
            Conn.customerID c = Asg.CustomerID a
            /\ Asg.FacilityID a = Some (Conn.facilityID c)
            /\ (exists row,
                   iloc0 (fun row => String.eqb (Row.CustomerID row) (Asg.CustomerID a))
                         customers_df = Some row
                   /\ Conn.source c = [Row.Longitude row; Row.Latitude row])
            /\ exists f fac,
                (f < n_facilities)%nat
                /\ Conn.facilityID c = facility_id f
                /\ nth_error (Result.facility_locations r) f = Some fac
                /\ Conn.target c = [Fac.Longitude fac; Fac.Latitude fac])
         (Result.assignments r) conns.
Proof.
  intros H Hall. apply optimize_Ok in H.
  destruct H as (low & high & st0 & st & total & asg & recs
                 & _ & H0 & Hrun & Hev & Hrecs & ->).
  simpl in Hall. simpl.
  assert (Hfil : filter has_facility recs = recs).
  { clear - Hall. induction recs as [| a l IH]; [reflexivity | ].
    cbn [filter]. unfold has_facility at 1.
    destruct (Asg.FacilityID a) eqn:Ea.
    - f_equal. apply IH. intros b Hb. apply Hall. right. exact Hb.
    - exfalso. apply (Hall a (or_introl eq_refl)). exact Ea. }
  clear Hall.
  destruct (final_assignments_facts _ _ _ _ _ _ _ _ H0 Hrun Hev)
    as (Hk & _ & Hrange).
  assert (Hids : forall a, In a recs ->
                           In (Asg.CustomerID a) (map Row.CustomerID customers_df)).
  { intros a Ha.
    destruct (assignment_record_origin _ _ a Hrecs Ha) as (cf & Hin & -> & _).
    apply keys_demands_ids. rewrite <- Hk. apply in_map. exact Hin. }
  assert (Hrec : forall a, In a recs ->
                           Asg.FacilityID a = None
                           \/ exists f, (f < n_facilities)%nat
                                        /\ Asg.FacilityID a = Some (facility_id f)).
  { intros a Ha.
    destruct (assignment_record_origin _ _ a Hrecs Ha) as ([c o] & Hin & _ & _ & Ef).
    simpl in Ef. destruct o as [f | ]; [right | left; exact Ef].
    exists f. split; [eapply Hrange; exact Hin | exact Ef]. }
  clear Hev Hrecs Hk Hrange.
  pose proof (final_position_length _ _ _ _ _ _ H0 Hrun) as Hlen.
  set (p := deref (Swarm.personal_best_positions (Loop.swarm st))
                  (Loop.global_best_position st)) in *.
  assert (Hnd : NoDup (map Fac.FacilityID (facility_records p))).
  { rewrite facility_records_ids. apply NoDup_map_injective; [ | apply seq_NoDup].
    intros i j. apply facility_id_inj. }
  destruct (connections (facility_records p) customers_df recs) as [conns | ] eqn:E.
  - exists conns. split; [reflexivity | ].
    unfold connections in E. apply connections_fold_Some in E.
    destruct E as (cs & -> & Hcs). simpl.
    rewrite <- Hfil. clear Hfil.
    assert (Hsub : forall a, In a (filter has_facility recs) -> In a recs)
      by (intros a Ha; apply filter_In in Ha; tauto).
    induction Hcs as [| a c l cs' (fid & Ea & Ec) _ IH]; constructor.
    + destruct (Hrec a (Hsub a (or_introl eq_refl))) as [Hn | (f & Hf & Ef)];
        [congruence | ].
      rewrite Ea in Ef. injection Ef as ->.
      unfold connection in Ec.
      destruct (iloc0 (fun row => String.eqb (Row.CustomerID row) (Asg.CustomerID a))
                      customers_df) as [row | ]; [ | discriminate].
      destruct (iloc0 (fun row => String.eqb (Fac.FacilityID row) (facility_id f))
                      (facility_records p)) as [fac | ] eqn:E2; [ | discriminate].
      injection Ec as <-. simpl.
      split; [reflexivity | split; [exact Ea | split]].
      * exists row. split; reflexivity.
      * exists f, fac. split; [exact Hf | split; [reflexivity | split; [ | reflexivity]]].
        destruct (facility_records_nth p f) as (fac' & Hnth & Hid); [lia | ].
        apply iloc0_Some in E2. destruct E2 as [Hin Hm]. apply String.eqb_eq in Hm.
        rewrite Hnth. f_equal.
        apply (NoDup_map_In_inj Fac.FacilityID (facility_records p));
          [exact Hnd | eapply nth_error_In; exact Hnth | exact Hin | congruence].
    + apply IH. intros b Hb. apply Hsub. right. exact Hb.
  - exfalso. unfold connections in E. apply connections_fold_None in E.
    destruct E as (a & fid & Ha & Ea & Hc).
    apply connection_None_iff in Hc. destruct Hc as [Hc | Hf].
    + apply Hc. apply Hids. exact Ha.
    + destruct (Hrec a Ha) as [Hn | (f & Hlt & Ef)]; [congruence | ].
      rewrite Ea in Ef. injection Ef as ->. apply Hf.
      rewrite facility_records_ids. apply in_map. apply in_seq. lia.
Qed.

(** *** The times of the result *)

Lemma run_iterations_clock (start : Q) (low high : coord) :
  forall m a st st',
    Loop.completed_iterations st = a ->
    Loop.clock_reads st = (1 + 2 * a)%nat ->
    List.length (Loop.history st) = a ->
    (forall j e, nth_error (Loop.history st) j = Some e ->
                 Hist.time e = time_time (2 + 2 * j) - start) ->
    run start low high (seq a m) st = Ok st' ->
    (forall j e, nth_error (Loop.history st') j = Some e ->
                 Hist.time e = time_time (2 + 2 * j) - start)
    /\ ((Loop.completed_iterations st' = (a + m)%nat
         /\ Loop.clock_reads st' = (1 + 2 * (a + m))%nat)
        \/ ((Loop.completed_iterations st' < a + m)%nat
            /\ Loop.clock_reads st' = (2 + 2 * Loop.completed_iterations st')%nat
            /\ max_run_time_seconds
               < time_time (1 + 2 * Loop.completed_iterations st') - start)).
Proof.
  induction m as [| m IH]; intros a st st' Hc Hclk Hlen Ht H; simpl in H.
  - injection H as <-. split; [exact Ht | ]. left. split; lia.
  - rewrite Hclk in H.
    destruct (Qltb max_run_time_seconds (time_time (1 + 2 * a) - start)) eqn:E.
    + injection H as <-. simpl. apply Qltb_lt in E.
      split; [exact Ht | ]. right. rewrite Hc, Hclk.
      split; [lia | split; [lia | exact E]].
    + inv_bind H as st1 H1.
      pose proof (iteration_body_clock _ _ _ _ _ _ H1) as [Hclk1 Hc1].
      apply iteration_body_Ok in H1.
      destruct H1 as (sw & b & _ & _ & _ & _ & _ & Eh & _).
      simpl in Hclk1, Eh.
      destruct (IH (S a) st1 st') as [Ht' Hend]; try assumption.
      * rewrite Hclk1, Hclk. lia.
      * rewrite Eh, length_app. simpl. lia.
      * intros j e. rewrite Eh.
        destruct (Nat.lt_ge_cases j (List.length (Loop.history st))) as [Hlt | Hge].
        -- rewrite nth_error_app1 by exact Hlt. apply Ht.
        -- rewrite nth_error_app2 by exact Hge.
           destruct (j - List.length (Loop.history st))%nat as [| i] eqn:Ej;
             simpl; [ | destruct i; discriminate].
           intros [= <-]. simpl. rewrite Hclk.
           replace j with a by lia.
           replace (S (1 + 2 * a)) with (2 + 2 * a)%nat by lia. reflexivity.
      * split; [exact Ht' | ].
        destruct Hend as [[E1 E2] | (E1 & E2 & E3)].
        -- left. split; [rewrite E1 | rewrite E2]; lia.
        -- right. split; [lia | split; assumption].
Qed.

(** X14.  Counting the calls of [time.time()] from 0 (the one that sets
    [start_time]): the time recorded for iteration [j] is reading
    [2 + 2 j] minus the start.  When every iteration has run, the total
    time is reading [1 + 2 n_iterations] minus the start; when the loop has
    stopped after [k < n_iterations] iterations, check [1 + 2 k] has found
    the budget exceeded and the total time is reading [2 + 2 k] minus the
    start. *)
Theorem X14_times_are_clock_readings (r : Result.t) :
  optimize = Ok r ->
  (forall j e, nth_error (Result.history r) j = Some e ->
               Hist.time e = time_time (2 + 2 * j) - time_time 0)
  /\ (Result.completed_iterations r = n_iterations ->
      Result.total_time r = time_time (1 + 2 * n_iterations) - time_time 0)
  /\ ((Result.completed_iterations r < n_iterations)%nat ->
      max_run_time_seconds
      < time_time (1 + 2 * Result.completed_iterations r) - time_time 0
      /\ Result.total_time r
         = time_time (2 + 2 * Result.completed_iterations r) - time_time 0).
Proof.
  intros H. apply optimize_Ok in H.
  destruct H as (low & high & st0 & st & total & asg & recs & _ & H0 & Hrun & _ & _ & ->).
  simpl. apply initial_state_Ok in H0.
  destruct H0 as (scores & g & _ & _ & _ & _ & _ & _ & _ & Eh & Ec & Eclk).
  destruct (run_iterations_clock (time_time 0) low high n_iterations 0%nat st0 st)
    as [Ht Hend]; try assumption.
  - rewrite Eh. reflexivity.
  - rewrite Eh. intros j e Hj. destruct j; discriminate Hj.
  - split; [exact Ht | ].
    destruct Hend as [[E1 E2] | (E1 & E2 & E3)].
    + split; [intros _; rewrite E2; reflexivity | intros Hlt; simpl in E1; lia].
    + split; [intros Heq; simpl in E1; lia | ].
      intros _. split; [exact E3 | rewrite E2; reflexivity].
Qed.

End RunFacts.

(** ** More on the fitness evaluator *)

Lemma closer_asym (ks : list Q) (g f : nat) : closer ks g f -> closer ks f g -> False.
Proof.
  unfold closer. intros [H1 | [H1 H1']] [H2 | [H2 H2']]; try lra. lia.
Qed.

Lemma closer_le (ks : list Q) (g f : nat) : closer ks g f -> nth g ks 0 <= nth f ks 0.
Proof.
  unfold closer. intros [H | [H _]]; lra.
Qed.

Lemma closer_total (ks : list Q) (g f : nat) :
  g <> f -> closer ks g f \/ closer ks f g.
Proof.
  intros Hne. unfold closer.
  destruct (Q_dec (nth g ks 0) (nth f ks 0)) as [[H | H] | H]; auto.
  destruct (Nat.lt_total g f) as [Hl | [He | Hl]]; [ | contradiction | ].
  - left. right. split; [exact H | exact Hl].
  - right. right. split; [symmetry; exact H | exact Hl].
Qed.

Lemma insert_by_key_sorted (ks : list Q) (k : nat) (l : list nat) :
  StronglySorted (closer ks) l -> (forall j, In j l -> (k < j)%nat) ->
  StronglySorted (closer ks) (insert_by_key ks k l).
Proof.
  induction l as [| j rest IH]; intros Hs Hgt; simpl.
  - constructor; constructor.
  - inversion Hs as [| ? ? Hrest Hall]; subst.
    destruct (Qle_bool (nth k ks 0) (nth j ks 0)) eqn:E.
    + apply Qle_bool_iff in E. constructor; [exact Hs | ].
      apply Forall_forall. intros x Hx.
      assert (Hjx : nth j ks 0 <= nth x ks 0).
      { destruct Hx as [<- | Hx]; [lra | ].
        rewrite Forall_forall in Hall. apply closer_le. apply Hall. exact Hx. }
      specialize (Hgt x Hx). unfold closer.
      destruct (Qlt_le_dec (nth k ks 0) (nth x ks 0)) as [Hlt | Hge];
        [left; exact Hlt | right; split; [lra | exact Hgt]].
    + assert (Hlt : nth j ks 0 < nth k ks 0).
      { apply Qnot_le_lt. intros Hle. apply Qle_bool_iff in Hle. congruence. }
      constructor.
      * apply IH; [exact Hrest | ]. intros x Hx. apply Hgt. right. exact Hx.
      * apply Forall_forall. intros x Hx. apply In_insert_by_key in Hx.
        destruct Hx as [-> | Hx]; [left; exact Hlt | ].
        rewrite Forall_forall in Hall. apply Hall. exact Hx.
Qed.

(** The sorted index list is ordered by key, ties by index. *)
Lemma sorted_range_by_sorted (ks : list Q) :
  StronglySorted (closer ks) (sorted_range_by ks).
Proof.
  unfold sorted_range_by.
  assert (G : forall n a,
             StronglySorted (closer ks) (fold_right (insert_by_key ks) [] (seq a n))
             /\ forall j, In j (fold_right (insert_by_key ks) [] (seq a n)) ->
                          (a <= j)%nat).
  { induction n as [| n IH]; intros a; simpl.
    - split; [constructor | intros j []].
    - destruct (IH (S a)) as [Hs Hge]. split.
      + apply insert_by_key_sorted; [exact Hs | ]. intros j Hj.
        specialize (Hge j Hj). lia.
      + intros j Hj. apply In_insert_by_key in Hj.
        destruct Hj as [-> | Hj]; [lia | ]. specialize (Hge j Hj). lia. }
  apply G.
Qed.

Lemma first_fit_None_inv (usage : list Q) (demand capacity : Q) (l : list nat) :
  first_fit usage demand capacity l = None ->
  forall f, In f l -> capacity < nth f usage 0 + demand.
Proof.
  induction l as [| g l IH]; simpl; [intros _ f [] | ].
  destruct (Qle_bool (nth g usage 0 + demand) capacity) eqn:E; [discriminate | ].
  intros H f [<- | Hf]; [ | apply IH; assumption].
  apply Qnot_le_lt. intros Hle. apply Qle_bool_iff in Hle. congruence.
Qed.

(** The facility found is the first with room in the sorted order. *)
Lemma first_fit_first (ks usage : list Q) (demand capacity : Q) (l : list nat)
  (f : nat) :
  StronglySorted (closer ks) l ->
  first_fit usage demand capacity l = Some f ->
  forall g, In g l -> closer ks g f -> capacity < nth g usage 0 + demand.
Proof.
  induction l as [| h l IH]; simpl; [discriminate | ].
  intros Hs H g Hg Hc. inversion Hs as [| ? ? Hl Hall]; subst.
  rewrite Forall_forall in Hall.
  destruct (Qle_bool (nth h usage 0 + demand) capacity) eqn:E.
  - injection H as <-. exfalso. destruct Hg as [<- | Hg].
    + exact (closer_asym _ _ _ Hc Hc).
    + exact (closer_asym _ _ _ Hc (Hall g Hg)).
  - destruct Hg as [<- | Hg].
    + apply Qnot_le_lt. intros Hle. apply Qle_bool_iff in Hle. congruence.
    + apply (IH Hl H g Hg Hc).
Qed.

Lemma assign_customer_greedy (fl : position) (coords : dict coord)
  (capacity cpk upl : Q) (st st' : Eval.state) (c : string) (d : Q) :
  assign_customer fl coords capacity cpk upl st (c, d) = Ok st' ->
  exists choice,
    Eval.assignments st' = set (Eval.assignments st) c choice
    /\ nearest_with_room fl coords capacity
         (fun g => nth g (Eval.facility_usage st) 0) c d choice.
Proof.
  unfold assign_customer, nearest_with_room.
  destruct (get coords c) as [[lat lon] | ]; [ | discriminate].
  assert (Hlen : List.length (distances_to fl lat lon) = List.length fl)
    by (unfold distances_to; apply length_map).
  destruct (first_fit _ _ _ _) as [f | ] eqn:Ef; intros H.
  - destruct (Qeq_bool upl 0); [discriminate | ].
    destruct (float_overflows (d / upl)); [discriminate | ]. injection H as <-.
    exists (Some f). split; [reflexivity | ]. exists lat, lon.
    split; [reflexivity | ].
    pose proof (first_fit_Some _ _ _ _ _ Ef) as [Hin Hle].
    apply In_sorted_range_by in Hin. rewrite Hlen in Hin.
    repeat split; try assumption.
    intros g Hg Hc.
    apply (first_fit_first _ _ _ _ _ _ (sorted_range_by_sorted _) Ef); [ | exact Hc].
    apply In_sorted_range_by. rewrite Hlen. exact Hg.
  - injection H as <-. exists None. split; [reflexivity | ]. exists lat, lon.
    split; [reflexivity | ].
    intros g Hg. apply (first_fit_None_inv _ _ _ _ Ef).
    apply In_sorted_range_by. rewrite Hlen. exact Hg.
Qed.

Lemma firstn_snoc_le {A : Type} (l : list A) (a : A) (i : nat) :
  (i <= List.length l)%nat -> firstn i (l ++ [a]) = firstn i l.
Proof.
  intros H. rewrite firstn_app.
  replace (i - List.length l)%nat with 0%nat by lia.
  simpl. apply app_nil_r.
Qed.

(** X1.  Each customer, in the order of [demands], goes to the nearest facility
    that has room when its turn comes, ties going to the lower index; it is
    left unassigned exactly when no facility has room. *)
Theorem X1_nearest_feasible_assignment (facility_locations : position)
  (customers : list string) (demands : dict Q) (customer_coords : dict coord)
  (facility_capacity fixed_cost cost_per_km units_per_load : Q)
  (cost : Q) (assignments : dict (option nat)) (i : nat) (c : string) (d : Q) :
  NoDup (keys demands) ->
  calculate_total_cost facility_locations customers demands customer_coords
    facility_capacity fixed_cost cost_per_km units_per_load
  = Ok (cost, assignments) ->
  nth_error demands i = Some (c, d) ->
  exists choice,
    nth_error assignments i = Some (c, choice)
    /\ nearest_with_room facility_locations customer_coords facility_capacity
         (facility_load demands (firstn i assignments)) c d choice.
Proof.
  intros Hnd H Hi. apply calculate_total_cost_Ok in H.
  destruct H as (st & Hst & -> & _).
  set (G := fun (pre : dict Q) (s : Eval.state) =>
              eval_inv facility_locations demands customer_coords
                       facility_capacity cost_per_km units_per_load pre s
              /\ forall j c' d',
                  nth_error pre j = Some (c', d') ->
                  exists choice,
                    nth_error (Eval.assignments s) j = Some (c', choice)
                    /\ nearest_with_room facility_locations customer_coords
                         facility_capacity
                         (facility_load demands (firstn j (Eval.assignments s)))
                         c' d' choice).
  assert (HG : G demands st).
  { revert Hst. apply (foldM_invariant _ G).
    - split; [apply eval_inv_init | ]. intros j c' d' Hj. destruct j; discriminate.
    - intros pre [c0 d0] rest s s' Ed [Hinv Hgr] Hstep.
      pose proof (eval_inv_step _ _ _ _ _ _ _ _ _ _ _ _ Hnd Ed Hinv Hstep) as Hinv'.
      split; [exact Hinv' | ].
      destruct Hinv as (Hk & _ & Hload & _).
      assert (Hlen : List.length (Eval.assignments s) = List.length pre).
      { apply (f_equal (@List.length string)) in Hk. unfold keys in Hk.
        rewrite !length_map in Hk. exact Hk. }
      assert (Hfresh : ~ In c0 (keys (Eval.assignments s))).
      { rewrite Hk. rewrite Ed in Hnd. unfold keys in *. rewrite map_app in Hnd.
        simpl in Hnd. apply NoDup_remove_2 in Hnd. intros Hc. apply Hnd.
        apply in_or_app. left. exact Hc. }
      apply assign_customer_greedy in Hstep.
      destruct Hstep as (choice & Easg & Hnear).
      rewrite (set_fresh _ _ _ Hfresh) in Easg. rewrite Easg.
      intros j c' d' Hj.
      destruct (Nat.lt_ge_cases j (List.length pre)) as [Hlt | Hge].
      + rewrite nth_error_app1 in Hj by exact Hlt.
        destruct (Hgr j c' d' Hj) as (ch & Hn & Hnr).
        exists ch. rewrite nth_error_app1 by lia.
        rewrite firstn_snoc_le by lia. split; assumption.
      + rewrite nth_error_app2 in Hj by exact Hge.
        destruct (j - List.length pre)%nat as [| k] eqn:Ej; simpl in Hj;
          [ | destruct k; discriminate].
        injection Hj as <- <-.
        assert (j = List.length (Eval.assignments s)) by lia. subst j.
        exists choice. rewrite nth_error_app2 by lia.
        rewrite Nat.sub_diag. split; [reflexivity | ].
        rewrite firstn_app, Nat.sub_diag, firstn_all. simpl. rewrite app_nil_r.
        destruct Hnear as (lat & lon & Ec & Hch). exists lat, lon.
        split; [exact Ec | ].
        destruct choice as [f | ].
        * destruct Hch as (Hf & Hle & Hfirst). rewrite <- !Hload.
          repeat split; try assumption.
          intros g Hg Hc. rewrite <- Hload. apply Hfirst; assumption.
        * intros g Hg. rewrite <- Hload. apply Hch. exact Hg. }
  destruct HG as [_ Hgr]. apply (Hgr i c d Hi).
Qed.

(** *** Exceptions of the evaluator *)

Lemma foldM_raises {A S : Type} (body : S -> A -> result S) (e : exn) (l : list A) :
  (forall s a, In a l -> (exists s', body s a = Ok s') \/ body s a = Raise e) ->
  (exists a, In a l /\ forall s, body s a = Raise e) ->
  forall s, foldM body l s = Raise e.
Proof.
  induction l as [| a l IH]; intros Hcases (a0 & Hin & Hr) s; simpl.
  - destruct Hin.
  - destruct (Hcases s a (or_introl eq_refl)) as [(s' & E) | E]; rewrite E; simpl;
      [ | reflexivity].
    apply IH.
    + intros s1 b Hb. apply Hcases. right. exact Hb.
    + destruct Hin as [<- | Hin]; [rewrite Hr in E; discriminate | eauto].
Qed.

Lemma missing_key_dec (l k : list string) :
  (forall c, In c l -> In c k) \/ (exists c, In c l /\ ~ In c k).
Proof.
  induction l as [| c l IH].
  - left. intros c [].
  - destruct (in_dec string_dec c k) as [Hc | Hc].
    + destruct IH as [IH | (c' & Hin & Hn)].
      * left. intros c' [<- | H]; auto.
      * right. exists c'. split; [right; exact Hin | exact Hn].
    + right. exists c. split; [left; reflexivity | exact Hc].
Qed.

(** X2.  With a non-zero [units_per_load] and every load quotient
    [demand / units_per_load] within the range of the doubles, so that
    neither the division nor [math.ceil] can raise, [calculate_total_cost]
    raises [KeyError] exactly when some customer of [demands] has no entry
    in [customer_coords], and returns otherwise. *)
Theorem X2_missing_coordinates_KeyError (facility_locations : position)
  (customers : list string) (demands : dict Q) (customer_coords : dict coord)
  (facility_capacity fixed_cost cost_per_km units_per_load : Q) :
  ~ units_per_load == 0 ->
  (forall c d, In (c, d) demands -> float_overflows (d / units_per_load) = false) ->
  (calculate_total_cost facility_locations customers demands customer_coords
     facility_capacity fixed_cost cost_per_km units_per_load = Raise KeyError
   <-> exists c, In c (keys demands) /\ ~ In c (keys customer_coords))
  /\ ((exists cost asg,
          calculate_total_cost facility_locations customers demands customer_coords
            facility_capacity fixed_cost cost_per_km units_per_load
          = Ok (cost, asg))
      <-> forall c, In c (keys demands) -> In c (keys customer_coords)).
Proof.
  intros Hu Ho.
  assert (Hraise : (exists c, In c (keys demands) /\ ~ In c (keys customer_coords)) ->
                   calculate_total_cost facility_locations customers demands
                     customer_coords facility_capacity fixed_cost cost_per_km
                     units_per_load = Raise KeyError).
  { intros (c & Hc & Hn). unfold calculate_total_cost.
    rewrite (foldM_raises _ KeyError); [reflexivity | | ].
    - intros s [c' d'] Hd.
      destruct (in_dec string_dec c' (keys customer_coords)) as [Hin | Hnin].
      + left. apply assign_customer_total; [exact Hin | exact Hu | exact (Ho _ _ Hd)].
      + right. unfold assign_customer. apply get_None in Hnin. rewrite Hnin.
        reflexivity.
    - unfold keys in Hc. apply in_map_iff in Hc. destruct Hc as ([c' d'] & <- & Hin).
      exists (c', d'). split; [exact Hin | ]. intros s0.
      unfold assign_customer. simpl in Hn. apply get_None in Hn. rewrite Hn.
      reflexivity. }
  assert (Hok : (forall c, In c (keys demands) -> In c (keys customer_coords)) ->
                exists cost asg,
                  calculate_total_cost facility_locations customers demands
                    customer_coords facility_capacity fixed_cost cost_per_km
                    units_per_load = Ok (cost, asg))
    by (intros H; apply calculate_total_cost_total; assumption).
  split; split.
  - intros H. destruct (missing_key_dec (keys demands) (keys customer_coords))
      as [Hall | Hmiss]; [ | exact Hmiss].
    destruct (Hok Hall) as (cost & asg & E). rewrite E in H. discriminate.
  - exact Hraise.
  - intros (cost & asg & E).
    destruct (missing_key_dec (keys demands) (keys customer_coords))
      as [Hall | Hmiss]; [exact Hall | ].
    rewrite (Hraise Hmiss) in E. discriminate.
  - exact Hok.
Qed.

Lemma sorted_range_by_nonempty (ks : list Q) :
  ks <> [] -> In 0%nat (sorted_range_by ks).
Proof.
  intros H. apply In_sorted_range_by. destruct ks; [congruence | simpl; lia].
Qed.

(** X3.  With [units_per_load = 0], the division of the load count is reached as
    soon as a customer is assigned: the evaluator raises [ZeroDivisionError]
    when there is a facility and some customer's demand does not exceed the
    capacity, and an evaluation that returns has assigned no customer. *)
Theorem X3_zero_units_per_load (facility_locations : position)
  (customers : list string) (demands : dict Q) (customer_coords : dict coord)
  (facility_capacity fixed_cost cost_per_km units_per_load : Q) :
  units_per_load == 0 ->
  (forall c, In c (keys demands) -> In c (keys customer_coords)) ->
  (facility_locations <> [] ->
   (exists c d, In (c, d) demands /\ d <= facility_capacity) ->
   calculate_total_cost facility_locations customers demands customer_coords
     facility_capacity fixed_cost cost_per_km units_per_load
   = Raise ZeroDivisionError)
  /\ (forall cost asg,
         calculate_total_cost facility_locations customers demands customer_coords
           facility_capacity fixed_cost cost_per_km units_per_load
         = Ok (cost, asg) ->
         forall c o, In (c, o) asg -> o = None).
Proof.
  intros Hu Hcoords. split.
  - intros Hfl Hfit. unfold calculate_total_cost.
    set (zeros := map (fun _ : nat => 0) (seq 0 (List.length facility_locations))).
    assert (G : forall l cost0 asg0,
               (forall c, In c (keys l) -> In c (keys customer_coords)) ->
               (exists c d, In (c, d) l /\ d <= facility_capacity) ->
               foldM (assign_customer facility_locations customer_coords
                        facility_capacity cost_per_km units_per_load)
                     l (Eval.mk zeros cost0 asg0) = Raise ZeroDivisionError).
    { induction l as [| [c d] l IH]; intros cost0 asg0 Hc (c1 & d1 & Hin & Hle).
      - destruct Hin.
      - simpl. unfold assign_customer at 1. simpl.
        destruct (get customer_coords c) as [[lat lon] | ] eqn:Eg.
        2:{ apply get_None in Eg. exfalso. apply Eg. apply Hc. left. reflexivity. }
        destruct (first_fit zeros d facility_capacity _) as [f | ] eqn:Ef.
        + apply Qeq_bool_iff in Hu. rewrite Hu. reflexivity.
        + simpl. apply IH.
          * intros c' Hc'. apply Hc. right. exact Hc'.
          * destruct Hin as [[= -> ->] | Hin]; [ | eauto].
            exfalso.
            assert (Hne : distances_to facility_locations lat lon <> []).
            { unfold distances_to. destruct facility_locations;
                [congruence | discriminate]. }
            pose proof (first_fit_None_inv _ _ _ _ Ef 0%nat
                          (sorted_range_by_nonempty _ Hne)) as Hlt.
            unfold zeros in Hlt. rewrite nth_zeros in Hlt. lra. }
    rewrite (G demands 0 [] Hcoords Hfit). reflexivity.
  - intros cost asg H. apply calculate_total_cost_Ok in H.
    destruct H as (st & Hst & -> & _).
    revert Hst.
    apply (foldM_invariant _ (fun _ s => forall c o, In (c, o) (Eval.assignments s)
                                                     -> o = None)).
    + intros c o [].
    + intros pre [c0 d0] rest s s' _ Hs Hstep c o Hin.
      apply assign_customer_Ok in Hstep.
      destruct Hstep as (lat & lon & _ & [(f & _ & _ & Hn & _) | (_ & ->)]);
        [contradiction | ].
      simpl in Hin. apply In_set in Hin.
      destruct Hin as [[_ ->] | Hin]; [reflexivity | eapply Hs; exact Hin].
Qed.

(** *** Edge cases and conservation of demand *)

Lemma fold_set_fresh {V : Type} (f : string * Q -> V) (l : dict Q) (d0 : dict V) :
  NoDup (keys d0 ++ keys l) ->
  fold_left (fun d kv => set d (fst kv) (f kv)) l d0
  = d0 ++ map (fun kv => (fst kv, f kv)) l.
Proof.
  revert d0. induction l as [| [c v] l IH]; intros d0 Hnd; simpl.
  - symmetry. apply app_nil_r.
  - assert (Hfresh : ~ In c (keys d0)).
    { simpl in Hnd. apply NoDup_remove_2 in Hnd. intros H. apply Hnd.
      apply in_or_app. left. exact H. }
    rewrite (set_fresh _ _ _ Hfresh), IH.
    + rewrite <- app_assoc. reflexivity.
    + unfold keys in *. rewrite map_app. simpl. rewrite <- app_assoc. exact Hnd.
Qed.

(** X4.  Without facilities every customer is unassigned and the cost is
    1,000,000 per customer; nothing is divided, so [units_per_load] may be
    zero. *)
Theorem X4_no_facility_all_unassigned (customers : list string) (demands : dict Q)
  (customer_coords : dict coord)
  (facility_capacity fixed_cost cost_per_km units_per_load : Q) :
  NoDup (keys demands) ->
  (forall c, In c (keys demands) -> In c (keys customer_coords)) ->
  exists cost,
    calculate_total_cost [] customers demands customer_coords
      facility_capacity fixed_cost cost_per_km units_per_load
    = Ok (cost, map (fun kv => (fst kv, None)) demands)
    /\ cost == 1000000 * inject_Z (Z.of_nat (List.length demands)).
Proof.
  intros Hnd Hcoords. unfold calculate_total_cost. simpl.
  assert (G : forall l cost0 asg0,
             (forall c, In c (keys l) -> In c (keys customer_coords)) ->
             foldM (assign_customer [] customer_coords facility_capacity
                      cost_per_km units_per_load) l (Eval.mk [] cost0 asg0)
             = Ok (Eval.mk []
                     (fold_left (fun t _ => t + penalty_factor) l cost0)
                     (fold_left (fun a kv => set a (fst kv) None) l asg0))).
  { induction l as [| [c d] l IH]; intros cost0 asg0 Hc; simpl; [reflexivity | ].
    unfold assign_customer at 1. simpl.
    destruct (get customer_coords c) as [[lat lon] | ] eqn:Eg.
    2:{ apply get_None in Eg. exfalso. apply Eg. apply Hc. left. reflexivity. }
    simpl. apply IH. intros c' Hc'. apply Hc. right. exact Hc'. }
  rewrite (G demands 0 [] Hcoords). simpl.
  eexists. split.
  - unfold add_usage_std, add_fixed_costs. simpl.
    rewrite (fold_set_fresh (fun _ => None)) by exact Hnd. reflexivity.
  - clear.
    assert (G : forall (l : dict Q) a,
               fold_left (fun t (_ : string * Q) => t + penalty_factor) l a
               == a + 1000000 * inject_Z (Z.of_nat (List.length l))).
    { induction l as [| x l IH]; intros a.
      - simpl. ring.
      - cbn [fold_left List.length]. rewrite IH, Nat2Z.inj_succ. unfold Z.succ.
        rewrite inject_Z_plus. unfold penalty_factor. ring. }
    rewrite G. ring.
Qed.

Lemma Qsum_list_set (l : list Q) (f : nat) (x : Q) :
  (f < List.length l)%nat -> Qsum (list_set l f x) == Qsum l - nth f l 0 + x.
Proof.
  revert f. induction l as [| y l IH]; intros f Hf; simpl in Hf; [lia | ].
  destruct f as [| f]; simpl.
  - rewrite !Qsum_cons. ring.
  - rewrite !Qsum_cons, IH by lia. ring.
Qed.

(** X5.  When [calculate_total_cost] returns, the running totals that its
    assignment loop has accumulated in [facility_usage] (the final state
    [st] of the loop) are, facility by facility, the sums of the demands of
    the customers that the returned mapping assigns to the facility, and
    they add up to the demand of the assigned customers: the increments of
    the loop lose no demand and count none twice. *)
Theorem X5_usage_conserves_demand (facility_locations : position)
  (customers : list string) (demands : dict Q) (customer_coords : dict coord)
  (facility_capacity fixed_cost cost_per_km units_per_load : Q)
  (cost : Q) (assignments : dict (option nat)) :
  NoDup (keys demands) ->
  calculate_total_cost facility_locations customers demands customer_coords
    facility_capacity fixed_cost cost_per_km units_per_load
  = Ok (cost, assignments) ->
  exists st,
    foldM (assign_customer facility_locations customer_coords facility_capacity
                           cost_per_km units_per_load)
          demands
          (Eval.mk (map (fun _ => 0) (seq 0 (List.length facility_locations))) 0 [])
    = Ok st
    /\ Eval.assignments st = assignments
    /\ List.length (Eval.facility_usage st) = List.length facility_locations
    /\ (forall facility,
           nth facility (Eval.facility_usage st) 0
           = facility_load demands assignments facility)
    /\ Qsum (Eval.facility_usage st)
       == Qsum (map (fun entry => demand_of demands (fst entry))
                    (filter is_assigned assignments)).
Proof.
  intros Hnd H. apply calculate_total_cost_Ok in H.
  destruct H as (st & Hst & -> & _).
  exists st. split; [exact Hst | split; [reflexivity | ]].
  pose proof (eval_loop_inv _ _ _ _ _ _ _ Hnd Hst) as Hinv.
  destruct Hinv as (_ & Hlen0 & Hload0 & _).
  split; [exact Hlen0 | split; [exact Hload0 | ]]. clear Hlen0 Hload0.
  set (G := fun (pre : dict Q) (s : Eval.state) =>
              eval_inv facility_locations demands customer_coords
                       facility_capacity cost_per_km units_per_load pre s
              /\ Qsum (Eval.facility_usage s)
                 == Qsum (map (fun entry => demand_of demands (fst entry))
                              (filter is_assigned (Eval.assignments s)))).
  assert (HG : G demands st).
  { revert Hst. apply (foldM_invariant _ G).
    - split; [apply eval_inv_init | ]. simpl.
      rewrite (Qsum_const 0). unfold Qsum. simpl. ring.
    - intros pre [c d] rest s s' Ed [Hinv Hsum] Hstep.
      pose proof (eval_inv_step _ _ _ _ _ _ _ _ _ _ _ _ Hnd Ed Hinv Hstep) as Hinv'.
      split; [exact Hinv' | ].
      destruct Hinv as (Hk & Hlen & _).
      assert (Hin : In (c, d) demands) by (rewrite Ed; apply in_elt).
      assert (Hd : demand_of demands c = d)
        by (unfold demand_of; rewrite (get_In _ _ _ Hnd Hin); reflexivity).
      assert (Hfresh : ~ In c (keys (Eval.assignments s))).
      { rewrite Hk. rewrite Ed in Hnd. unfold keys in *. rewrite map_app in Hnd.
        simpl in Hnd. apply NoDup_remove_2 in Hnd. intros Hc. apply Hnd.
        apply in_or_app. left. exact Hc. }
      apply assign_customer_Ok in Hstep.
      destruct Hstep as (lat & lon & _ & [(f & Hf & _ & _ & ->) | (_ & ->)]);
        simpl; rewrite (set_fresh _ _ _ Hfresh), filter_snoc; simpl.
      + rewrite map_app. cbn [map fst]. rewrite Qsum_app, Hd.
        rewrite Qsum_list_set by (rewrite Hlen; exact Hf). rewrite Hsum. ring.
      + exact Hsum. }
  apply HG.
Qed.

End FacilityPSO.


(** * Concrete runs *)

Lemma Demo_draws_range (n : nat) : 0 <= np_random (World := Demo.world) n <= 1.
Proof.
  unfold np_random, Demo.world, Demo.draws.
  do 16 (destruct n as [| n]; [simpl; lra | ]).
  destruct n; simpl; lra.
Qed.

(** C4 on a concrete run: two customers on the equator, one facility, two
    particles.  Particle 0 is the best initial particle, so the global best
    position is a view of row 0 of [personal_best_positions].  Its update
    improves its personal best, which overwrites the row: the position read
    through the reference changes, and particle 1, updated next in the same
    sweep, gets another velocity than against the snapshot taken before the
    sweep. *)
Lemma C4_sweep_reads_overwritten_global_best :
  exists st0 sw1 sw sw',
    initial_state (numpy := Demo.flat) (world := Demo.world)
      Demo.customers_df 1 1000 500 1 100 2 (9 # 10) (0, 0) (0, 1) = Ok st0
    /\ Loop.global_best_position st0 = RowView 0
    /\ update_particle (numpy := Demo.flat) (world := Demo.world)
         Demo.customers_df 1 1000 500 1 100 2 2 (0, 0) (0, 1)
         (Loop.global_best_position st0) (9 # 10) (Loop.swarm st0) 0 = Ok sw1
    /\ snd (nth 0 (deref (Swarm.personal_best_positions (Loop.swarm st0))
                         (Loop.global_best_position st0)) (0, 0)) == 1 # 2
    /\ snd (nth 0 (deref (Swarm.personal_best_positions sw1)
                         (Loop.global_best_position st0)) (0, 0)) == 59 # 100
    /\ sweep (numpy := Demo.flat) (world := Demo.world)
         Demo.customers_df 1 1000 500 1 100 2 2 2 (0, 0) (0, 1)
         (Loop.global_best_position st0) (9 # 10) (Loop.swarm st0) = Ok sw
    /\ sweep (numpy := Demo.flat) (world := Demo.world)
         Demo.customers_df 1 1000 500 1 100 2 2 2 (0, 0) (0, 1)
         (Owned (deref (Swarm.personal_best_positions (Loop.swarm st0))
                       (Loop.global_best_position st0)))
         (9 # 10) (Loop.swarm st0) = Ok sw'
    /\ snd (nth 0 (nth 1 (Swarm.velocities sw) []) (0, 0)) == 39 # 200
    /\ snd (nth 0 (nth 1 (Swarm.velocities sw') []) (0, 0)) == 3 # 20.
Proof.
  eexists. eexists. eexists. eexists.
  split; [vm_compute; reflexivity | ].
  split; [reflexivity | ].
  split; [vm_compute; reflexivity | ].
  split; [vm_compute; reflexivity | ].
  split; [vm_compute; reflexivity | ].
  split; [vm_compute; reflexivity | ].
  split; [vm_compute; reflexivity | ].
  split; vm_compute; reflexivity.
Qed.

Lemma C3_witness :
  exists cost asg,
    calculate_total_cost (numpy := Demo.flat) [(0, 0); (0, 1)] []
      [("A"%string, 40); ("B"%string, 40); ("C"%string, 30)]
      [("A"%string, (0, 0)); ("B"%string, (0, 1)); ("C"%string, (0, 0))]
      50 500 1 100 = Ok (cost, asg)
    /\ facility_load [("A"%string, 40); ("B"%string, 40); ("C"%string, 30)] asg 0 <= 50.
Proof.
  eexists. eexists.
  assert (H : calculate_total_cost (numpy := Demo.flat) [(0, 0); (0, 1)] []
      [("A"%string, 40); ("B"%string, 40); ("C"%string, 30)]
      [("A"%string, (0, 0)); ("B"%string, (0, 1)); ("C"%string, (0, 0))]
      50 500 1 100 = Ok _) by (vm_compute; reflexivity).
  split; [exact H | ].
  refine (C3_usage_within_capacity _ _ _ _ _ _ _ _ _ _ _ H 0%nat _).
  - repeat constructor; simpl; intuition discriminate.
  - left. lra.
Defined.

Lemma C2_witness :
  exists cost asg,
    calculate_total_cost (numpy := Demo.flat) [(0, 0); (0, 1)] []
      [("A"%string, 40); ("B"%string, 40); ("C"%string, 30)]
      [("A"%string, (0, 0)); ("B"%string, (0, 1)); ("C"%string, (0, 0))]
      50 500 1 100 = Ok (cost, asg)
    /\ asg = [("A"%string, Some 0%nat); ("B"%string, Some 1%nat); ("C"%string, None)]
    /\ keys asg = ["A"%string; "B"%string; "C"%string]
    /\ cost == spec_total_cost (numpy := Demo.flat) [(0, 0); (0, 1)]
                 [("A"%string, 40); ("B"%string, 40); ("C"%string, 30)]
                 [("A"%string, (0, 0)); ("B"%string, (0, 1)); ("C"%string, (0, 0))]
                 500 1 100 asg.
Proof.
  eexists. eexists.
  assert (H : calculate_total_cost (numpy := Demo.flat) [(0, 0); (0, 1)] []
      [("A"%string, 40); ("B"%string, 40); ("C"%string, 30)]
      [("A"%string, (0, 0)); ("B"%string, (0, 1)); ("C"%string, (0, 0))]
      50 500 1 100 = Ok _) by (vm_compute; reflexivity).
  split; [exact H | ].
  split; [reflexivity | ].
  refine (C2_total_cost_decomposition _ _ _ _ _ _ _ _ _ _ _ H).
  repeat constructor; simpl; intuition discriminate.
Defined.

(** C5 as first stated fails in its own scenario: with one facility of
    capacity 30 and two customers of demand 40, the number of unassigned
    customers is two, not one. *)
Lemma C5_counterexample_both_unassigned :
  exists cost asg,
    calculate_total_cost (numpy := Demo.flat) [(0, 0)] []
      [("A"%string, 40); ("B"%string, 40)]
      [("A"%string, (0, 0)); ("B"%string, (0, 1))] 30 500 1 100 = Ok (cost, asg)
    /\ List.length (filter (fun entry => negb (is_assigned entry)) asg) = 2%nat
    /\ List.length (filter (fun entry => negb (is_assigned entry)) asg) <> 1%nat.
Proof.
  eexists. eexists.
  split; [vm_compute; reflexivity | ].
  split; [reflexivity | discriminate].
Qed.

Lemma C5_witness :
  exists cost asg,
    calculate_total_cost (numpy := Demo.flat) [(0, 0)] []
      [("A"%string, 40); ("B"%string, 40)]
      [("A"%string, (0, 0)); ("B"%string, (0, 1))] 30 500 1 100 = Ok (cost, asg)
    /\ get asg "B"%string = Some None
    /\ 1000000 <= penalty_part asg
    /\ asg = [("A"%string, None); ("B"%string, None)]
    /\ cost == 2000000.
Proof.
  eexists. eexists.
  assert (H : calculate_total_cost (numpy := Demo.flat) [(0, 0)] []
      [("A"%string, 40); ("B"%string, 40)]
      [("A"%string, (0, 0)); ("B"%string, (0, 1))] 30 500 1 100 = Ok _)
    by (vm_compute; reflexivity).
  split; [exact H | ].
  assert (Hnd : NoDup (keys [("A"%string, 40); ("B"%string, 40)]))
    by (repeat constructor; simpl; intuition discriminate).
  assert (Hpos : forall c d, In (c, d) [("A"%string, 40); ("B"%string, 40)] -> 0 <= d)
    by (intros c d [E | [E | []]]; injection E as _ <-; lra).
  destruct (C5_oversized_demand_unassigned _ _ _ _ _ _ _ _ _ _ Hnd Hpos H)
    as [Hgen Hscn].
  destruct (Hgen "B"%string 40) as [Hb Hp]; [right; left; reflexivity | lra | ].
  destruct (Hscn "A"%string "B"%string 40 40) as [Ha Hc];
    [reflexivity | reflexivity | reflexivity | reflexivity | reflexivity | ].
  repeat split; assumption.
Defined.

Lemma C1_witness :
  exists r e1 e2,
    optimize_facility_locations_pso (numpy := Demo.flat) (world := Demo.world)
      Demo.customers_df 1 1000 500 1 100 2 2 100 (9 # 10) 2 2 = Ok r
    /\ nth_error (Result.history r) 0 = Some e1
    /\ nth_error (Result.history r) 1 = Some e2
    /\ Hist.iteration e1 = 0%nat /\ Hist.iteration e2 = 1%nat
    /\ Hist.best_score e2 <= Hist.best_score e1.
Proof.
  eexists. eexists. eexists.
  assert (H : optimize_facility_locations_pso (numpy := Demo.flat)
                (world := Demo.world) Demo.customers_df 1 1000 500 1 100 2 2 100
                (9 # 10) 2 2 = Ok _) by (vm_compute; reflexivity).
  split; [exact H | ].
  split; [reflexivity | ].
  split; [reflexivity | ].
  exact (C1_best_score_non_increasing _ _ _ _ _ _ _ _ _ _ _ _ _ 0%nat _ _
           H eq_refl eq_refl).
Defined.

Lemma C6_witness :
  exists r fac,
    optimize_facility_locations_pso (numpy := Demo.flat) (world := Demo.world)
      Demo.customers_df 1 1000 500 1 100 2 2 100 (9 # 10) 2 2 = Ok r
    /\ In fac (Result.facility_locations r)
    /\ (0 <= Fac.Latitude fac <= 0 /\ 0 <= Fac.Longitude fac <= 1).
Proof.
  eexists. eexists.
  assert (H : optimize_facility_locations_pso (numpy := Demo.flat)
                (world := Demo.world) Demo.customers_df 1 1000 500 1 100 2 2 100
                (9 # 10) 2 2 = Ok _) by (vm_compute; reflexivity).
  split; [exact H | ].
  split; [left; reflexivity | ].
  apply (C6_facilities_in_bounding_box (numpy := Demo.flat) (world := Demo.world)
           Demo.customers_df 1 1000 500 1 100 2 2 100 (9 # 10) 2 2 _ 0 0 0 1 _
           Demo_draws_range H);
    [reflexivity | reflexivity | reflexivity | reflexivity | left; reflexivity].
Defined.



Lemma C8_witness :
  exists r,
    optimize_facility_locations_pso (numpy := Demo.flat) (world := Demo.world)
      Demo.customers_df 1 1000 500 1 100 2 0 100 (9 # 10) 2 2 = Ok r
    /\ Result.completed_iterations r = 0%nat
    /\ Result.history r = []
    /\ Result.total_cost r == 23113 # 8
    /\ (exists fac, Result.facility_locations r = [fac]
                    /\ Fac.Latitude fac == 0 /\ Fac.Longitude fac == 1 # 2).
Proof.
  eexists.
  assert (H : optimize_facility_locations_pso (numpy := Demo.flat)
                (world := Demo.world) Demo.customers_df 1 1000 500 1 100 2 0 100
                (9 # 10) 2 2 = Ok _) by (vm_compute; reflexivity).
  split; [exact H | ].
  destruct (C8_no_completed_iteration _ _ _ _ _ _ _ _ _ _ _ _ _ H) as [_ Hzero].
  destruct (Hzero (or_introl eq_refl)) as (Hc & Hh & _).
  split; [exact Hc | ]. split; [exact Hh | ].
  split; [vm_compute; reflexivity | ].
  eexists. split; [reflexivity | ]. split; vm_compute; reflexivity.
Defined.

Lemma C9_witness :
  exists st0 st,
    initial_state (numpy := Demo.flat) (world := Demo.world)
      Demo.customers_df 1 1000 500 1 100 2 (9 # 10) (0, 0) (0, 1) = Ok st0
    /\ run_iterations (numpy := Demo.flat) (world := Demo.world)
         Demo.customers_df 1 1000 500 1 100 2 100 2 2 0 (0, 0) (0, 1)
         (seq 0 2) st0 = Ok st
    /\ Loop.completed_iterations st = 2%nat
    /\ Loop.current_inertia_weight st
       == Qmax (4 # 10) ((9 # 10) * (99 # 100) ^ 2)
    /\ 4 # 10 <= Loop.current_inertia_weight st
    /\ decay_inertia (Loop.current_inertia_weight st) <= Loop.current_inertia_weight st.
Proof.
  eexists. eexists.
  assert (H0 : initial_state (numpy := Demo.flat) (world := Demo.world)
                 Demo.customers_df 1 1000 500 1 100 2 (9 # 10) (0, 0) (0, 1) = Ok _)
    by (vm_compute; reflexivity).
  split; [exact H0 | ].
  match type of H0 with
  | _ = Ok ?s =>
      assert (H : run_iterations (numpy := Demo.flat) (world := Demo.world)
                    Demo.customers_df 1 1000 500 1 100 2 100 2 2 0 (0, 0) (0, 1)
                    (seq 0 2) s = Ok _) by (vm_compute; reflexivity)
  end.
  split; [exact H | ]. split; [reflexivity | ].
  destruct (C9_inertia_decay _ _ _ _ _ _ _ _ _ _ _ _ _ _ _ _ _ H0 H)
    as (_ & Hclosed & Hmono).
  destruct (Hclosed (or_introl (le_S _ _ (le_n 1)))) as [Hc Hf].
  split; [exact Hc | ]. split; [exact Hf | ].
  apply Hmono. lra.
Defined.

(** C9 as first stated fails before the first iteration completes: with
    [inertia_weight = 0.3] and no completed iteration the working weight is
    0.3, not [max(0.4, 0.3 * 0.99^0) = 0.4]. *)
Lemma C9_counterexample_before_first_iteration :
  exists st0 st,
    initial_state (numpy := Demo.flat) (world := Demo.world)
      Demo.customers_df 1 1000 500 1 100 2 (3 # 10) (0, 0) (0, 1) = Ok st0
    /\ run_iterations (numpy := Demo.flat) (world := Demo.world)
         Demo.customers_df 1 1000 500 1 100 2 100 2 2 0 (0, 0) (0, 1)
         (seq 0 0) st0 = Ok st
    /\ Loop.completed_iterations st = 0%nat
    /\ Loop.current_inertia_weight st == 3 # 10
    /\ ~ Loop.current_inertia_weight st
         == Qmax (4 # 10)
                 ((3 # 10) * (99 # 100) ^ Z.of_nat (Loop.completed_iterations st)).
Proof.
  eexists. eexists.
  split; [vm_compute; reflexivity | ].
  split; [reflexivity | ].
  split; [reflexivity | ].
  split; [reflexivity | ].
  vm_compute. discriminate.
Qed.

(** ** The further properties on concrete inputs *)

Lemma X1_witness :
  exists cost asg,
    calculate_total_cost (numpy := Demo.flat) [(0, 0); (0, 1)] []
      [("A"%string, 40); ("B"%string, 40); ("C"%string, 30)]
      [("A"%string, (0, 0)); ("B"%string, (0, 1)); ("C"%string, (0, 0))]
      50 500 1 100 = Ok (cost, asg)
    /\ exists choice,
        nth_error asg 2 = Some ("C"%string, choice)
        /\ nearest_with_room (numpy := Demo.flat) [(0, 0); (0, 1)]
             [("A"%string, (0, 0)); ("B"%string, (0, 1)); ("C"%string, (0, 0))]
             50
             (facility_load [("A"%string, 40); ("B"%string, 40); ("C"%string, 30)]
                            (firstn 2 asg))
             "C"%string 30 choice.
Proof.
  eexists. eexists.
  assert (H : calculate_total_cost (numpy := Demo.flat) [(0, 0); (0, 1)] []
      [("A"%string, 40); ("B"%string, 40); ("C"%string, 30)]
      [("A"%string, (0, 0)); ("B"%string, (0, 1)); ("C"%string, (0, 0))]
      50 500 1 100 = Ok _) by (vm_compute; reflexivity).
  split; [exact H | ].
  refine (X1_nearest_feasible_assignment _ _ _ _ _ _ _ _ _ _ 2%nat _ _ _ H _).
  - repeat constructor; simpl; intuition discriminate.
  - reflexivity.
Defined.

Lemma X2_witness :
  ~ 100 == 0
  /\ (forall c d,
         In (c, d) [("A"%string, 40); ("B"%string, 40); ("C"%string, 30)] ->
         float_overflows (d / 100) = false)
  /\ (calculate_total_cost (numpy := Demo.flat) [(0, 0); (0, 1)] []
        [("A"%string, 40); ("B"%string, 40); ("C"%string, 30)]
        [("A"%string, (0, 0)); ("B"%string, (0, 1))]
        50 500 1 100 = Raise KeyError
      <-> exists c,
          In c (keys [("A"%string, 40); ("B"%string, 40); ("C"%string, 30)])
          /\ ~ In c (keys [("A"%string, (0, 0)); ("B"%string, (0, 1))]))
  /\ ((exists cost asg,
          calculate_total_cost (numpy := Demo.flat) [(0, 0); (0, 1)] []
            [("A"%string, 40); ("B"%string, 40); ("C"%string, 30)]
            [("A"%string, (0, 0)); ("B"%string, (0, 1))]
            50 500 1 100 = Ok (cost, asg))
      <-> forall c,
          In c (keys [("A"%string, 40); ("B"%string, 40); ("C"%string, 30)]) ->
          In c (keys [("A"%string, (0, 0)); ("B"%string, (0, 1))])).
Proof.
  assert (Hu : ~ 100 == 0) by lra.
  assert (Ho : forall c d,
             In (c, d) [("A"%string, 40); ("B"%string, 40); ("C"%string, 30)] ->
             float_overflows (d / 100) = false).
  { intros c d [E | [E | [E | []]]]; injection E as _ <-; vm_compute; reflexivity. }
  split; [exact Hu | ]. split; [exact Ho | ].
  exact (X2_missing_coordinates_KeyError (numpy := Demo.flat) _ _ _ _ _ _ _ _ Hu Ho).
Defined.

Lemma X3_witness :
  0 == 0
  /\ (forall c,
         In c (keys [("A"%string, 60); ("B"%string, 40)]) ->
         In c (keys [("A"%string, (0, 0)); ("B"%string, (0, 1))]))
  /\ calculate_total_cost (numpy := Demo.flat) [(0, 0)] []
       [("A"%string, 60); ("B"%string, 40)]
       [("A"%string, (0, 0)); ("B"%string, (0, 1))]
       50 500 1 0 = Raise ZeroDivisionError.
Proof.
  assert (Hu : 0 == 0) by reflexivity.
  assert (Hc : forall c,
             In c (keys [("A"%string, 60); ("B"%string, 40)]) ->
             In c (keys [("A"%string, (0, 0)); ("B"%string, (0, 1))]))
    by (intros c H; exact H).
  split; [exact Hu | ]. split; [exact Hc | ].
  destruct (X3_zero_units_per_load (numpy := Demo.flat) [(0, 0)] []
              [("A"%string, 60); ("B"%string, 40)]
              [("A"%string, (0, 0)); ("B"%string, (0, 1))]
              50 500 1 0 Hu Hc) as [Hraise _].
  apply Hraise; [discriminate | ].
  exists "B"%string, 40. split; [right; left; reflexivity | lra].
Defined.

Lemma X4_witness :
  NoDup (keys [("A"%string, 40); ("B"%string, 40); ("C"%string, 30)])
  /\ exists cost,
      calculate_total_cost (numpy := Demo.flat) [] []
        [("A"%string, 40); ("B"%string, 40); ("C"%string, 30)]
        [("A"%string, (0, 0)); ("B"%string, (0, 1)); ("C"%string, (0, 0))]
        50 500 1 100
      = Ok (cost,
            map (fun kv : string * Q => (fst kv, None))
                [("A"%string, 40); ("B"%string, 40); ("C"%string, 30)])
      /\ cost == 1000000
                 * inject_Z (Z.of_nat (List.length [("A"%string, 40); ("B"%string, 40);
                                                    ("C"%string, 30)])).
Proof.
  assert (Hnd : NoDup (keys [("A"%string, 40); ("B"%string, 40); ("C"%string, 30)]))
    by (repeat constructor; simpl; intuition discriminate).
  split; [exact Hnd | ].
  apply (X4_no_facility_all_unassigned (numpy := Demo.flat)); [exact Hnd | ].
  intros c H. exact H.
Defined.

Lemma X5_witness :
  exists cost asg st,
    calculate_total_cost (numpy := Demo.flat) [(0, 0); (0, 1)] []
      [("A"%string, 40); ("B"%string, 40); ("C"%string, 30)]
      [("A"%string, (0, 0)); ("B"%string, (0, 1)); ("C"%string, (0, 0))]
      50 500 1 100 = Ok (cost, asg)
    /\ foldM (assign_customer (numpy := Demo.flat) [(0, 0); (0, 1)]
                [("A"%string, (0, 0)); ("B"%string, (0, 1)); ("C"%string, (0, 0))]
                50 1 100)
             [("A"%string, 40); ("B"%string, 40); ("C"%string, 30)]
             (Eval.mk (map (fun _ => 0) (seq 0 2)) 0 [])
       = Ok st
    /\ Eval.facility_usage st = [0 + 40; 0 + 40]
    /\ Qsum (Eval.facility_usage st)
       == Qsum (map (fun entry : string * option nat =>
                       demand_of [("A"%string, 40); ("B"%string, 40); ("C"%string, 30)]
                                 (fst entry))
                    (filter is_assigned asg)).
Proof.
  eexists. eexists.
  assert (H : calculate_total_cost (numpy := Demo.flat) [(0, 0); (0, 1)] []
      [("A"%string, 40); ("B"%string, 40); ("C"%string, 30)]
      [("A"%string, (0, 0)); ("B"%string, (0, 1)); ("C"%string, (0, 0))]
      50 500 1 100 = Ok _) by (vm_compute; reflexivity).
  assert (Hnd : NoDup (keys [("A"%string, 40); ("B"%string, 40); ("C"%string, 30)]))
    by (repeat constructor; simpl; intuition discriminate).
  destruct (X5_usage_conserves_demand _ _ _ _ _ _ _ _ _ _ Hnd H)
    as (st & Hst & _ & _ & _ & Hsum).
  exists st. split; [exact H | ]. split; [exact Hst | ].
  split; [ | exact Hsum].
  vm_compute in Hst. injection Hst as <-. reflexivity.
Defined.

Lemma X6_witness :
  exists r,
    optimize_facility_locations_pso (numpy := Demo.flat) (world := Demo.world)
      Demo.customers_df 1 1000 500 1 100 2 2 100 (9 # 10) 2 2 = Ok r
    /\ map Fac.FacilityID (Result.facility_locations r) = map facility_id (seq 0 1)
    /\ List.length (Result.facility_locations r) = 1%nat
    /\ NoDup (map Fac.FacilityID (Result.facility_locations r)).
Proof.
  eexists.
  assert (H : optimize_facility_locations_pso (numpy := Demo.flat)
                (world := Demo.world) Demo.customers_df 1 1000 500 1 100 2 2 100
                (9 # 10) 2 2 = Ok _) by (vm_compute; reflexivity).
  split; [exact H | ].
  exact (X6_result_facilities_FAC1_to_FACn _ _ _ _ _ _ _ _ _ _ _ _ _ H).
Defined.

Lemma X7_witness :
  exists r,
    optimize_facility_locations_pso (numpy := Demo.flat) (world := Demo.world)
      Demo.customers_df 1 1000 500 1 100 2 2 100 (9 # 10) 2 2 = Ok r
    /\ map Asg.CustomerID (Result.assignments r) = ["A"%string; "B"%string]
    /\ forall a, In a (Result.assignments r) ->
                 get (demands Demo.customers_df) (Asg.CustomerID a) = Some (Asg.Demand a)
                 /\ (Asg.FacilityID a = None
                     \/ exists f, (f < 1)%nat
                                  /\ Asg.FacilityID a = Some (facility_id f)).
Proof.
  eexists.
  assert (H : optimize_facility_locations_pso (numpy := Demo.flat)
                (world := Demo.world) Demo.customers_df 1 1000 500 1 100 2 2 100
                (9 # 10) 2 2 = Ok _) by (vm_compute; reflexivity).
  split; [exact H | ].
  destruct (X7_result_assignment_records _ _ _ _ _ _ _ _ _ _ _ _ _ H)
    as (Hids & _ & _ & Hrec & _).
  split; [exact Hids | exact Hrec].
Defined.

Lemma X8_witness :
  exists r,
    optimize_facility_locations_pso (numpy := Demo.flat) (world := Demo.world)
      Demo.customers_df 1 1000 500 1 100 2 2 100 (9 # 10) 2 2 = Ok r
    /\ List.length (Result.history r) = Result.completed_iterations r
    /\ map Hist.iteration (Result.history r) = seq 0 (Result.completed_iterations r).
Proof.
  eexists.
  assert (H : optimize_facility_locations_pso (numpy := Demo.flat)
                (world := Demo.world) Demo.customers_df 1 1000 500 1 100 2 2 100
                (9 # 10) 2 2 = Ok _) by (vm_compute; reflexivity).
  split; [exact H | ].
  exact (X8_history_one_entry_per_iteration _ _ _ _ _ _ _ _ _ _ _ _ _ H).
Defined.

(** A budget of two seconds on a clock that advances by one second per
    reading: the check of iteration 0 passes, the check of iteration 1 stops
    the loop. *)
Lemma X9_witness :
  exists r,
    optimize_facility_locations_pso (numpy := Demo.flat) (world := Demo.world)
      Demo.customers_df 1 1000 500 1 100 2 2 2 (9 # 10) 2 2 = Ok r
    /\ (1 <= 2)%nat
    /\ (forall j, (j < 1)%nat ->
                  time_time (World := Demo.world) (1 + 2 * j)
                  - time_time (World := Demo.world) 0 <= 2)
    /\ 2 < time_time (World := Demo.world) (1 + 2 * 1)
           - time_time (World := Demo.world) 0
    /\ Result.completed_iterations r = 1%nat.
Proof.
  eexists.
  assert (H : optimize_facility_locations_pso (numpy := Demo.flat)
                (world := Demo.world) Demo.customers_df 1 1000 500 1 100 2 2 2
                (9 # 10) 2 2 = Ok _) by (vm_compute; reflexivity).
  assert (Hk : (1 <= 2)%nat) by lia.
  assert (Hin : forall j, (j < 1)%nat ->
                          time_time (World := Demo.world) (1 + 2 * j)
                          - time_time (World := Demo.world) 0 <= 2).
  { intros j Hj. replace j with 0%nat by lia. vm_compute. discriminate. }
  assert (Hout : 2 < time_time (World := Demo.world) (1 + 2 * 1)
                     - time_time (World := Demo.world) 0)
    by (vm_compute; reflexivity).
  split; [exact H | ]. split; [exact Hk | ]. split; [exact Hin | ].
  split; [exact Hout | ].
  exact (X9_completed_iterations_by_budget _ _ _ _ _ _ _ _ _ _ _ _ _ 1%nat
           Hk Hin (or_intror Hout) H).
Defined.

Lemma X10_witness :
  exists r,
    optimize_facility_locations_pso (numpy := Demo.flat) (world := Demo.world)
      Demo.customers_df 1 1000 500 1 100 2 2 100 (9 # 10) 2 2 = Ok r
    /\ (forall e,
           nth_error (Result.history r) (pred (List.length (Result.history r)))
           = Some e ->
           Hist.best_score e = Result.total_cost r)
    /\ (forall e, In e (Result.history r) -> Result.total_cost r <= Hist.best_score e).
Proof.
  eexists.
  assert (H : optimize_facility_locations_pso (numpy := Demo.flat)
                (world := Demo.world) Demo.customers_df 1 1000 500 1 100 2 2 100
                (9 # 10) 2 2 = Ok _) by (vm_compute; reflexivity).
  split; [exact H | ].
  exact (X10_total_cost_is_last_best_score _ _ _ _ _ _ _ _ _ _ _ _ _ H).
Defined.

Lemma X11_witness :
  exists r,
    optimize_facility_locations_pso (numpy := Demo.flat) (world := Demo.world)
      Demo.customers_df 1 1000 500 1 100 2 2 100 (9 # 10) 2 2 = Ok r
    /\ exists low high scores,
        bounds Demo.customers_df = Ok (low, high)
        /\ mapM (score_of (numpy := Demo.flat) Demo.customers_df 1000 500 1 100)
                (random_uniform (world := Demo.world) 0 low high 2 1) = Ok scores
        /\ forall s, In s scores -> Result.total_cost r <= s.
Proof.
  eexists.
  assert (H : optimize_facility_locations_pso (numpy := Demo.flat)
                (world := Demo.world) Demo.customers_df 1 1000 500 1 100 2 2 100
                (9 # 10) 2 2 = Ok _) by (vm_compute; reflexivity).
  split; [exact H | ].
  exact (X11_total_cost_at_most_initial_scores _ _ _ _ _ _ _ _ _ _ _ _ _ H).
Defined.

Lemma X13_witness :
  exists r conns,
    optimize_facility_locations_pso (numpy := Demo.flat) (world := Demo.world)
      Demo.customers_df 1 1000 500 1 100 2 2 100 (9 # 10) 2 2 = Ok r
    /\ connections (Result.facility_locations r) Demo.customers_df
                   (Result.assignments r) = Some conns
    /\ map Conn.customerID conns = ["A"%string; "B"%string]
    /\ map Conn.facilityID conns = [facility_id 0; facility_id 0]
    /\ map Conn.source conns = [[0; 0]; [1; 0]].
Proof.
  eexists.
  assert (H : optimize_facility_locations_pso (numpy := Demo.flat)
                (world := Demo.world) Demo.customers_df 1 1000 500 1 100 2 2 100
                (9 # 10) 2 2 = Ok _) by (vm_compute; reflexivity).
  destruct (X13_result_map_connections _ _ _ _ _ _ _ _ _ _ _ _ _ H)
    as (conns & Hconns & _).
  { intros a [<- | [<- | []]]; discriminate. }
  exists conns. split; [exact H | ]. split; [exact Hconns | ].
  vm_compute in Hconns. injection Hconns as <-.
  repeat split; reflexivity.
Defined.

(** The same two-second budget: one history entry, stamped with reading 2,
    and a total time that is reading 4. *)
Lemma X14_witness :
  exists r,
    optimize_facility_locations_pso (numpy := Demo.flat) (world := Demo.world)
      Demo.customers_df 1 1000 500 1 100 2 2 2 (9 # 10) 2 2 = Ok r
    /\ (Result.completed_iterations r < 2)%nat
    /\ map Hist.time (Result.history r) = [time_time (World := Demo.world) 2 - 0]
    /\ Result.total_time r
       = time_time (World := Demo.world) (2 + 2 * Result.completed_iterations r)
         - time_time (World := Demo.world) 0.
Proof.
  eexists.
  assert (H : optimize_facility_locations_pso (numpy := Demo.flat)
                (world := Demo.world) Demo.customers_df 1 1000 500 1 100 2 2 2
                (9 # 10) 2 2 = Ok _) by (vm_compute; reflexivity).
  split; [exact H | ].
  split; [simpl; lia | ].
  split; [vm_compute; reflexivity | ].
  destruct (X14_times_are_clock_readings _ _ _ _ _ _ _ _ _ _ _ _ _ H)
    as (_ & _ & Hstop).
  refine (proj2 (Hstop _)). simpl. lia.
Defined.
